(** * Neptune GraphQL utility: the command-line pipeline and the AWS pipeline
      resources, as a shallow embedding.

    The development follows the JavaScript sources module by module:

    - [Js]        the fragment of JavaScript values and string operations the
                  code relies on ([undefined], loose comparison with the empty
                  string, [split], [join], [includes], [splice]);
    - [Util]      util.js ([splitHost], [parseNeptuneDomainFromHost],
                  [parseNeptuneDomainFromEndpoint], [parseNeptuneGraphName]);
    - [Eff]       the effect monad shared by the stateful modules: module-level
                  variables, the outside world, exceptions and [process.exit];
    - [Pipeline]  pipelineResources.js;
    - [Main]      main.js.

    Console output, spinners and [sleep] have no influence on control flow or
    on any value and are left out of the embedding. *)

From Stdlib Require Import Ascii ZArith Lia.
From stdpp Require Import base functions strings list gmap pretty.

Local Open Scope string_scope.

(* ===================================================================== *)
(** * JavaScript values and string operations *)
(* ===================================================================== *)

Module Js.

(** A variable of main.js that is set from [array[index + 1]] holds a string
    or, when the option is the last argument, [undefined]; some variables of
    pipelineResources.js start as [null]. *)
Inductive jsval : Type :=
| JUndefined
| JNull
| JString (s : string).

Definition jsval_eqb (a b : jsval) : bool :=
  match a, b with
  | JUndefined, JUndefined => true
  | JNull, JNull => true
  | JString x, JString y => String.eqb x y
  | _, _ => false
  end.

(** [x == ''] : [undefined == ''] and [null == ''] are false. *)
Definition loose_empty (x : jsval) : bool :=
  match x with
  | JUndefined | JNull => false
  | JString s => String.eqb s ""
  end.

(** [x != ''] *)
Definition loose_nonempty (x : jsval) : bool := negb (loose_empty x).

(** [a === b] is [jsval_eqb]; [x !== ''] is strict, with the same table as
    [!=] on strings, [undefined] and [null]. *)
Definition strict_nonempty (x : jsval) : bool :=
  match x with
  | JUndefined | JNull => true
  | JString s => negb (String.eqb s "")
  end.

(** Truthiness: [undefined] and [''] are falsy. *)
Definition truthy (x : jsval) : bool :=
  match x with
  | JUndefined | JNull => false
  | JString s => negb (String.eqb s "")
  end.

(** [!x == ''] parses as [(!x) == '']; a boolean compared loosely with ['']
    is converted to a number, so the test holds exactly when [!x] is false. *)
Definition not_then_loose_empty (x : jsval) : bool := truthy x.

(** String conversion in concatenations and template literals. *)
Definition to_str (x : jsval) : string :=
  match x with
  | JUndefined => "undefined"
  | JNull => "null"
  | JString s => s
  end.

(** [s.split(sep)] for a one-character separator. The result is never
    empty: [''.split(':')] is [['']]. *)
Fixpoint split (sep : ascii) (s : string) : list string :=
  match s with
  | EmptyString => [EmptyString]
  | String c rest =>
      if Ascii.eqb c sep then EmptyString :: split sep rest
      else match split sep rest with
           | [] => [String c EmptyString]
           | p :: ps => String c p :: ps
           end
  end.

(** [parts.join(sep)] *)
Definition join (sep : string) (parts : list string) : string :=
  String.concat sep parts.

(** [parts[i]] *)
Definition index (parts : list string) (i : nat) : jsval :=
  match parts !! i with
  | Some p => JString p
  | None => JUndefined
  end.

(** [hay.includes(needle)] *)
Fixpoint includes (needle hay : string) : bool :=
  String.prefix needle hay ||
  match hay with
  | EmptyString => false
  | String _ rest => includes needle rest
  end.

(** [s.lastIndexOf(needle)]; [None] for [-1]. *)
Fixpoint lastIndexOf (needle s : string) : option nat :=
  match s with
  | EmptyString => if String.prefix needle s then Some 0 else None
  | String _ rest =>
      match lastIndexOf needle rest with
      | Some i => Some (S i)
      | None => if String.prefix needle s then Some 0 else None
      end
  end.

(** [s.substring(0, s.lastIndexOf(needle))]; a negative end counts as 0. *)
Definition before_last (needle s : string) : string :=
  match lastIndexOf needle s with
  | Some i => String.substring 0 i s
  | None => ""
  end.

(** [s.replace(pattern, replacement)] for a string pattern and a replacement
    without [$]: the first occurrence is replaced. *)
Fixpoint replace (pattern replacement s : string) : string :=
  if String.prefix pattern s then
    replacement +:+
    String.substring (String.length pattern)
                     (String.length s - String.length pattern) s
  else
    match s with
    | EmptyString => EmptyString
    | String c rest => String c (replace pattern replacement rest)
    end.

(** [obj.key] on an object used as a map. *)
Definition prop (obj : gmap string jsval) (key : string) : jsval :=
  default JUndefined (obj !! key).

(** [b.toString()] *)
Definition bool_to_string (b : bool) : string :=
  if b then "true" else "false".

(** The elements removed by [parts.splice(start, count)], for [0 <= start]. *)
Definition splice_removed (start count : nat) (parts : list string)
  : list string :=
  take count (drop start parts).

End Js.

(* ===================================================================== *)
(** * util.js *)
(* ===================================================================== *)

Module Util.
Import Js.

Definition MIN_HOST_PARTS : nat := 5.
Definition NUM_DOMAIN_PARTS : nat := 3.
Definition HOST_DELIMITER : ascii := "."%char.
Definition ENDPOINT_DELIMITER : ascii := ":"%char.

(** A call either returns a value or throws [Error(message)]. *)
Inductive result (A : Type) : Type :=
| Ok (a : A)
| Error (message : string).
Arguments Ok {A} a.
Arguments Error {A} message.

Definition splitHost (neptuneHost : string) : result (list string) :=
  let parts := split HOST_DELIMITER neptuneHost in
  if decide (length parts < MIN_HOST_PARTS) then
    Error ("Cannot parse neptune host " +:+ neptuneHost +:+
           " because it has " +:+ pretty (length parts) +:+
           " part(s) delimited by " +:+ String HOST_DELIMITER "" +:+
           " but expected at least " +:+ pretty MIN_HOST_PARTS)
  else Ok parts.

Definition parseNeptuneDomainFromHost (neptuneHost : string) : result string :=
  match splitHost neptuneHost with
  | Error m => Error m
  | Ok parts =>
      let domainParts :=
        splice_removed (length parts - NUM_DOMAIN_PARTS) NUM_DOMAIN_PARTS parts in
      Ok (join (String HOST_DELIMITER "") domainParts)
  end.

Definition parseNeptuneDomainFromEndpoint (neptuneEndpoint : string)
  : result string :=
  let parts := split ENDPOINT_DELIMITER neptuneEndpoint in
  if decide (length parts ≠ 2) then
    Error ("Cannot parse domain from neptune endpoint " +:+ neptuneEndpoint +:+
           " because it has " +:+ pretty (length parts) +:+
           " part(s) delimited by " +:+ String ENDPOINT_DELIMITER "" +:+
           " but expected 2")
  else
    match parts with
    | host :: _ => parseNeptuneDomainFromHost host
    | [] => Error "TypeError"
    end.

Definition parseNeptuneGraphName (neptuneHost : string) : result jsval :=
  match splitHost neptuneHost with
  | Error m => Error m
  | Ok parts => Ok (index parts 0)
  end.

Definition throws {A} (r : result A) : bool :=
  match r with Ok _ => false | Error _ => true end.

(** The last three elements of a list of parts. *)
Definition last3 (parts : list string) : list string :=
  drop (length parts - 3) parts.

End Util.

(* ===================================================================== *)
(** * Module-level variables *)
(* ===================================================================== *)

(** The [let] variables at the top of main.js. Each module keeps its
    variables in a store indexed by the variable's name. *)
Module MainVar.

(** Variables that hold a string (or [undefined], see [Js.jsval]). *)
Inductive svar : Set :=
| inputGraphQLSchema | inputGraphQLSchemaFile
| inputGraphQLSchemaChanges | inputGraphQLSchemaChangesFile
| inputGraphDBSchema | inputGraphDBSchemaFile
| inputGraphDBSchemaNeptuneEndpoint
| queryLanguage | queryClient
| createUpdatePipelineName | createUpdatePipelineEndpoint
| createUpdatePipelineRegion | createUpdatePipelineNeptuneDatabaseName
| removePipelineName
| inputCDKpipelineName | inputCDKpipelineEnpoint | inputCDKpipelineFile
| inputCDKpipelineRegion | inputCDKpipelineDatabaseName
| outputFolderPath | neptuneType
| outputSchema | outputSchemaFile
| outputSourceSchema | outputSourceSchemaFile
| outputLambdaResolver | outputLambdaResolverFile
| outputJSResolver | outputJSResolverFile
| outputNeptuneSchemaFile
| outputLambdaResolverZipName | outputLambdaResolverZipFile
| outputLambdaPackagePath.

(** Boolean variables. *)
Inductive bvar : Set :=
| quiet | isNeptuneIAMAuth | createUpdatePipeline | inputCDKpipeline
| createLambdaZip | outputSchemaMutations.

#[global] Instance svar_eq_dec : EqDecision svar.
Proof. solve_decision. Defined.
#[global] Instance bvar_eq_dec : EqDecision bvar.
Proof. solve_decision. Defined.

(** The initialisers of the declarations. *)
Definition init_s (x : svar) : Js.jsval :=
  match x with
  | queryLanguage => Js.JString "opencypher"
  | queryClient => Js.JString "sdk"
  | createUpdatePipelineRegion => Js.JString "us-east-1"
  | outputFolderPath => Js.JString "./output"
  | neptuneType => Js.JString "neptune-db"
  | _ => Js.JString ""
  end.

Definition init_b (x : bvar) : bool :=
  match x with
  | createLambdaZip | outputSchemaMutations => true
  | _ => false
  end.

End MainVar.

(** The [let] variables at the top of pipelineResources.js. *)
Module PipeVar.

Inductive svar : Set :=
| NEPTUNE_DB_NAME | NAME | REGION | APPSYNC_SCHEMA | LAMBDA_FILES_PATH
| thisOutputFolderPath
| NEPTUNE_HOST | NEPTUNE_PORT | NEPTUNE_DBSubnetGroup
| NEPTUNE_VpcSecurityGroupId
| NEPTUNE_CURRENT_VERSION | NEPTUNE_IAM_POLICY_RESOURCE
| LAMBDA_ROLE | LAMBDA_ARN | NEPTUNE_TYPE | ZIP | RESOURCES_FILE.

Inductive bvar : Set :=
| ADD_MUTATIONS | quiet | pipelineExists | NEPTUNE_IAM_AUTH
| NEPTUNE_CURRENT_IAM.

#[global] Instance svar_eq_dec : EqDecision svar.
Proof. solve_decision. Defined.
#[global] Instance bvar_eq_dec : EqDecision bvar.
Proof. solve_decision. Defined.

Definition init_s (x : svar) : Js.jsval :=
  match x with
  | thisOutputFolderPath => Js.JString "./output"
  | NEPTUNE_HOST | NEPTUNE_PORT | NEPTUNE_DBSubnetGroup
  | NEPTUNE_VpcSecurityGroupId | ZIP => Js.JNull
  | NEPTUNE_IAM_POLICY_RESOURCE => Js.JString "*"
  | NEPTUNE_TYPE => Js.JString "neptune-db"
  | _ => Js.JString ""
  end.

Definition init_b (x : bvar) : bool :=
  match x with
  | ADD_MUTATIONS => true
  | _ => false
  end.

End PipeVar.

(* ===================================================================== *)
(** * The outside world: library calls and the other modules *)
(* ===================================================================== *)

Module World.
Import Js.

(** What the code reads of a GraphQL [DocumentNode]: for each definition its
    [kind], [name.value] and the [name.value] of its fields. *)
Record definition : Type := Definition_ {
  kind : string;
  name : string;
  fields : list string
}.

(** What the code reads of a [DBClusters[0]] entry. *)
Record dbcluster : Type := DBCluster {
  Endpoint : string;
  Port : string;
  DBSubnetGroup : string;
  VpcSecurityGroups : list string;
  IAMDatabaseAuthenticationEnabled : bool;
  EngineVersion : string;
  DBClusterArn : string;
  DbClusterResourceId : string
}.

(** The parameters of the Lambda [CreateFunctionCommand] that vary. *)
Record lambda_params : Type := LambdaParams {
  ZipFile : jsval;
  FunctionName : string;
  Role : jsval;
  env_NEPTUNE_HOST : jsval;
  env_NEPTUNE_PORT : jsval;
  env_NEPTUNE_IAM_AUTH_ENABLED : string;
  env_NEPTUNE_DB_NAME : jsval;
  env_NEPTUNE_REGION : jsval;
  env_NEPTUNE_DOMAIN : string;
  env_NEPTUNE_TYPE : jsval;
  VpcConfig : option (list string * jsval)
}.

(** Commands sent through an AWS SDK client. *)
Inductive aws_command : Type :=
| GetFunctionCommand (FunctionName : string)
| ListGraphqlApisCommand (apiType : string)
| GetRoleCommand (RoleName : string)
| DescribeDBClustersCommand (DBClusterIdentifier : jsval)
| DescribeDBSubnetGroupsCommand (DBSubnetGroupName : string)
| CreateRoleCommand (RoleName : string) (principalService : string)
| AttachRolePolicyCommand (RoleName : string) (PolicyArn : string)
| CreatePolicyCommand (PolicyName : string) (Action : list string)
                      (Resource : list string)
| LambdaCreateFunctionCommand (params : lambda_params)
| CreateGraphqlApiCommand (name : string)
| CreateApiKeyCommand (apiId : string)
| CreateDataSourceCommand (apiId name serviceRoleArn : string)
                          (lambdaFunctionArn : jsval)
| AppSyncCreateFunctionCommand (apiId name dataSourceName : string)
| StartSchemaCreationCommand (apiId : jsval) (definition : jsval)
| ListResolversCommand (apiId : jsval) (typeName : string)
| CreateResolverCommand (apiId : jsval) (typeName fieldName : string)
                        (functionId : jsval)
| DeleteGraphqlApiCommand (apiId : jsval)
| DeleteFunctionCommand (FunctionName : jsval)
| DetachRolePolicyCommand (PolicyArn RoleName : jsval)
| DeletePolicyCommand (PolicyArn : jsval)
| DeleteRoleCommand (RoleName : jsval)
| UpdateFunctionCodeCommand (FunctionName : jsval) (ZipFile : jsval).

(** Library calls: the AWS SDK (a client of a region sending a command),
    [fs] and [archiver]. A library call returns or throws. *)
Inductive command : Type :=
| Send (region : jsval) (c : aws_command)
| ReadFileSync (path : jsval)
| WriteFileSync (path : jsval) (data : jsval)
| WriteJSON (path : jsval) (object : gmap string jsval)
| MkdirSync (path : jsval)
| ZipFolder (folderPath : jsval) (resolverFile zipFilePath : string).

Inductive response : Type :=
| RespNull
| RespEmpty
| RespText (s : string)
| RespRole (Arn : string)
| RespPolicy (Arn : string)
| RespLambda (FunctionArn : string)
| RespGraphqlApis (names : list string)
| RespGraphqlApi (apiId : string)
| RespApiKey (id : string)
| RespFunctionConfiguration (functionId : string)
| RespResolvers (fieldNames : list string)
| RespDBClusters (clusters : list dbcluster)
| RespDBSubnetGroups (groups : list (list string)).

Section Model.
Context {Model : Type}.

(** Arguments of [createUpdateAWSpipeline]. *)
Record pipeline_args : Type := PipelineArgs {
  pipelineName : jsval;
  neptuneDBName : jsval;
  neptuneDBregion : jsval;
  appSyncSchema : jsval;
  schemaModel : Model;
  lambdaFilesPath : string;
  addMutations : bool;
  quietI : bool;
  dirname : string;
  isNeptuneIAMAuth : bool;
  neptuneHost : jsval;
  neptunePort : jsval;
  outputFolderPath : jsval;
  neptuneType : jsval
}.

(** The object that main.js passes to [createAWSpipelineCDK]. *)
Record cdk_args : Type := CdkArgs {
  cdk_pipelineName : jsval;
  cdk_neptuneDBName : jsval;
  cdk_neptuneDBregion : jsval;
  cdk_appSyncSchema : jsval;
  cdk_schemaModel : Model;
  cdk_lambdaFilesPath : string;
  cdk_outputFile : jsval;
  cdk_dirname : string;
  cdk_quiet : bool;
  cdk_isNeptuneIAMAuth : bool;
  cdk_neptuneHost : jsval;
  cdk_neptunePort : jsval;
  cdk_outputFolderPath : jsval;
  cdk_neptuneType : jsval
}.

(** Calls from one module of the repository into another. *)
Inductive call : Type :=
| Call_graphDBInferenceSchema (graphdbSchema : jsval) (addMutations : bool)
| Call_changeGraphQLSchema (schema : jsval) (changes : jsval)
| Call_schemaParser (schema : jsval)
| Call_validatedSchemaModel (schemaModel : Model) (quiet : bool)
| Call_resolverJS (schemaModel : Model) (queryLanguage queryClient : jsval)
                  (dirname : string)
| Call_schemaStringify (schemaModel : Model) (directives : bool)
| Call_setGetNeptuneSchemaParameters (host port region : jsval)
                                     (domain : bool) (neptuneType : jsval)
| Call_getNeptuneSchema (quiet : bool)
| Call_createLambdaDeploymentPackage (templateFolderPath : string)
                                     (zipFilePath : jsval)
| Call_createUpdateAWSpipeline (args : pipeline_args)
| Call_createAWSpipelineCDK (args : cdk_args)
| Call_removeAWSpipelineResources (resources : gmap string jsval)
                                  (quietI : bool).

Inductive event : Type :=
| Lib (c : command)
| Call (c : call).

(** How a call into a module that is not modelled here ends. *)
Inductive reply : Type :=
| Returned (r : jsval)
| Threw
| Exited (code : Z).

End Model.
Arguments pipeline_args Model : clear implicits.
Arguments cdk_args Model : clear implicits.
Arguments call Model : clear implicits.
Arguments event Model : clear implicits.

(** The environment of a run. The passes of the core (inference, change
    engine, SDL codec, validator, resolver generator) live in modules that
    are not part of this development.

    Modelled from the spec: section 5 has every pass of the core as a pure,
    deterministic function from a schema model and/or text to another, that
    performs no I/O; a fatal diagnostic raises an error (section 7). So each
    pass is a function of its arguments alone, with [None] for a raised
    error. *)
Class Collaborators (World Model : Type) : Type := {
  __dirname : string;
  (** the value [{}] that [schemaModel] is initialised with *)
  emptyObject : Model;
  (** [model.definitions]; [None] when the property is missing *)
  definitions : Model -> option (list definition);
  graphDBInferenceSchema : jsval -> bool -> option jsval;
  changeGraphQLSchema : jsval -> jsval -> option jsval;
  schemaParser : jsval -> option Model;
  validatedSchemaModel : Model -> bool -> option Model;
  resolverJS : Model -> jsval -> jsval -> string -> option jsval;
  schemaStringify : Model -> bool -> option jsval;
  (** [JSON.parse] of a resources file *)
  JSON_parse : jsval -> option (gmap string jsval);
  (** library calls *)
  library : command -> World -> option response * World;
  (** calls into NeptuneSchema.js, lambdaZip.js and CDKPipelineApp.js *)
  collaborator : call Model -> World -> reply * World
}.

End World.

(* ===================================================================== *)
(** * The effect monad *)
(* ===================================================================== *)

Module Eff.
Import Js World.

Section Eff.
Context {World Model : Type} `{!Collaborators World Model}.

(** The state of a run: the variables of the two stateful modules, the
    outside world, and the trace of library calls and cross-module calls
    made so far, oldest first. *)
Record state : Type := State {
  ms : MainVar.svar -> jsval;
  mb : MainVar.bvar -> bool;
  schemaModel : Model;
  ps : PipeVar.svar -> jsval;
  pb : PipeVar.bvar -> bool;
  NEPTUNE_DBSubnetIds : list string;
  SCHEMA_MODEL : option Model;
  RESOURCES : gmap string jsval;
  world : World;
  trace : list (event Model)
}.

(** The state when the modules have been loaded. *)
Definition initial (w : World) : state :=
  {| ms := MainVar.init_s; mb := MainVar.init_b; schemaModel := emptyObject;
     ps := PipeVar.init_s; pb := PipeVar.init_b;
     NEPTUNE_DBSubnetIds := []; SCHEMA_MODEL := None; RESOURCES := ∅;
     world := w; trace := [] |}.

(** A computation returns, throws, or ends the process ([process.exit]). *)
Inductive outcome (A : Type) : Type :=
| Ret (a : A) (s : state)
| Throw (s : state)
| Exit (code : Z) (s : state).
Arguments Ret {A} a s.
Arguments Throw {A} s.
Arguments Exit {A} code s.

Definition M (A : Type) : Type := state -> outcome A.

Definition final {A} (o : outcome A) : state :=
  match o with
  | Ret _ s | Throw s | Exit _ s => s
  end.

Definition ret {A} (a : A) : M A := fun s => Ret a s.

Definition bind {A B} (m : M A) (k : A -> M B) : M B :=
  fun s =>
    match m s with
    | Ret a s' => k a s'
    | Throw s' => Throw s'
    | Exit c s' => Exit c s'
    end.

Definition throw {A} : M A := fun s => Throw s.
Definition exit {A} (code : Z) : M A := fun s => Exit code s.

(** [try { m } catch (error) { handler }]; [process.exit] is not caught. *)
Definition try_catch {A} (m : M A) (handler : M A) : M A :=
  fun s =>
    match m s with
    | Throw s' => handler s'
    | o => o
    end.

Definition get : M state := fun s => Ret s s.

Definition when (b : bool) (m : M unit) : M unit :=
  if b then m else ret tt.

(** Assignments. *)
Definition set_ms (x : MainVar.svar) (v : jsval) : M unit := fun s =>
  Ret tt {| ms := <[x := v]> (ms s); mb := mb s; schemaModel := schemaModel s;
            ps := ps s; pb := pb s;
            NEPTUNE_DBSubnetIds := NEPTUNE_DBSubnetIds s;
            SCHEMA_MODEL := SCHEMA_MODEL s; RESOURCES := RESOURCES s;
            world := world s; trace := trace s |}.

Definition set_mb (x : MainVar.bvar) (v : bool) : M unit := fun s =>
  Ret tt {| ms := ms s; mb := <[x := v]> (mb s); schemaModel := schemaModel s;
            ps := ps s; pb := pb s;
            NEPTUNE_DBSubnetIds := NEPTUNE_DBSubnetIds s;
            SCHEMA_MODEL := SCHEMA_MODEL s; RESOURCES := RESOURCES s;
            world := world s; trace := trace s |}.

Definition set_schemaModel (v : Model) : M unit := fun s =>
  Ret tt {| ms := ms s; mb := mb s; schemaModel := v;
            ps := ps s; pb := pb s;
            NEPTUNE_DBSubnetIds := NEPTUNE_DBSubnetIds s;
            SCHEMA_MODEL := SCHEMA_MODEL s; RESOURCES := RESOURCES s;
            world := world s; trace := trace s |}.

Definition set_ps (x : PipeVar.svar) (v : jsval) : M unit := fun s =>
  Ret tt {| ms := ms s; mb := mb s; schemaModel := schemaModel s;
            ps := <[x := v]> (ps s); pb := pb s;
            NEPTUNE_DBSubnetIds := NEPTUNE_DBSubnetIds s;
            SCHEMA_MODEL := SCHEMA_MODEL s; RESOURCES := RESOURCES s;
            world := world s; trace := trace s |}.

Definition set_pb (x : PipeVar.bvar) (v : bool) : M unit := fun s =>
  Ret tt {| ms := ms s; mb := mb s; schemaModel := schemaModel s;
            ps := ps s; pb := <[x := v]> (pb s);
            NEPTUNE_DBSubnetIds := NEPTUNE_DBSubnetIds s;
            SCHEMA_MODEL := SCHEMA_MODEL s; RESOURCES := RESOURCES s;
            world := world s; trace := trace s |}.

Definition set_NEPTUNE_DBSubnetIds (v : list string) : M unit := fun s =>
  Ret tt {| ms := ms s; mb := mb s; schemaModel := schemaModel s;
            ps := ps s; pb := pb s;
            NEPTUNE_DBSubnetIds := v;
            SCHEMA_MODEL := SCHEMA_MODEL s; RESOURCES := RESOURCES s;
            world := world s; trace := trace s |}.

Definition set_SCHEMA_MODEL (v : option Model) : M unit := fun s =>
  Ret tt {| ms := ms s; mb := mb s; schemaModel := schemaModel s;
            ps := ps s; pb := pb s;
            NEPTUNE_DBSubnetIds := NEPTUNE_DBSubnetIds s;
            SCHEMA_MODEL := v; RESOURCES := RESOURCES s;
            world := world s; trace := trace s |}.

Definition set_RESOURCES (v : gmap string jsval) : M unit := fun s =>
  Ret tt {| ms := ms s; mb := mb s; schemaModel := schemaModel s;
            ps := ps s; pb := pb s;
            NEPTUNE_DBSubnetIds := NEPTUNE_DBSubnetIds s;
            SCHEMA_MODEL := SCHEMA_MODEL s; RESOURCES := v;
            world := world s; trace := trace s |}.

(** The world moves to [w] and [e] is appended to the trace. *)
Definition record (e : event Model) (w : World) (s : state) : state :=
  {| ms := ms s; mb := mb s; schemaModel := schemaModel s;
     ps := ps s; pb := pb s;
     NEPTUNE_DBSubnetIds := NEPTUNE_DBSubnetIds s;
     SCHEMA_MODEL := SCHEMA_MODEL s; RESOURCES := RESOURCES s;
     world := w; trace := trace s ++ [e] |}.

(** A library call. *)
Definition perform (c : command) : M response := fun s =>
  match library c (world s) with
  | (Some r, w) => Ret r (record (Lib c) w s)
  | (None, w) => Throw (record (Lib c) w s)
  end.

(** A call of a pass of the core, whose result [r] is a function of the
    arguments. *)
Definition call_pass {A} (c : call Model) (r : option A) : M A := fun s =>
  match r with
  | Some a => Ret a (record (Call c) (world s) s)
  | None => Throw (record (Call c) (world s) s)
  end.

(** A call into a module that is left to the environment. *)
Definition call_out (c : call Model) : M jsval := fun s =>
  match collaborator c (world s) with
  | (Returned r, w) => Ret r (record (Call c) w s)
  | (Threw, w) => Throw (record (Call c) w s)
  | (Exited code, w) => Exit code (record (Call c) w s)
  end.

(** Entering a function of a module that is modelled here. *)
Definition enter (c : call Model) : M unit := fun s =>
  Ret tt (record (Call c) (world s) s).

(** [TypeError] when a value is missing. *)
Definition expect {A} (o : option A) : M A :=
  match o with
  | Some a => ret a
  | None => throw
  end.

(** Lifting util.js: the message of the error is only ever printed. *)
Definition lift_result {A} (r : Util.result A) : M A :=
  match r with
  | Util.Ok a => ret a
  | Util.Error _ => throw
  end.

(** [x.f(...)] for a string method [f]: a [TypeError] on [undefined]
    and [null]. *)
Definition as_string (x : jsval) : M string :=
  match x with
  | JString s => ret s
  | _ => throw
  end.

(** [for (const x of l) body(x)] *)
Fixpoint for_of {A} (l : list A) (body : A -> M unit) : M unit :=
  match l with
  | [] => ret tt
  | x :: rest => bind (body x) (fun _ => for_of rest body)
  end.

(** [l.forEach(function (val, index) { body })], from position [index]. *)
Fixpoint forEach_from {A} (index : nat) (l : list A)
    (body : A -> nat -> M unit) : M unit :=
  match l with
  | [] => ret tt
  | val :: rest =>
      bind (body val index) (fun _ => forEach_from (S index) rest body)
  end.

End Eff.

Arguments Ret {World Model A} a s.
Arguments Throw {World Model A} s.
Arguments Exit {World Model A} code s.

Declare Scope eff_scope.
Delimit Scope eff_scope with eff.
Notation "'let*' x ':=' m 'in' k" := (bind m (fun x => k))
  (at level 10, x name, m at level 100, k at level 200) : eff_scope.
Notation "m ';;' k" := (bind m (fun _ => k))
  (at level 100, k at level 200, right associativity) : eff_scope.

End Eff.

(* ===================================================================== *)
(** * pipelineResources.js *)
(* ===================================================================== *)

Module Pipeline.
Import Js World Eff.
Import PipeVar.
Local Open Scope eff_scope.

Definition NEPTUNE_DB : string := "neptune-db".

Section Pipeline.
Context {World Model : Type} `{!Collaborators World Model}.

Local Abbreviation M := (@Eff.M World Model).

(** [client.send(command)] for a client of [region]. *)
Definition send (region : jsval) (c : aws_command) : M response :=
  perform (Send region c).

(** The fields read from the responses; a missing object on the way is a
    [TypeError]. *)
Definition Role_Arn (r : response) : M string :=
  match r with RespRole a => ret a | _ => throw end.
Definition Policy_Arn (r : response) : M string :=
  match r with RespPolicy a => ret a | _ => throw end.
Definition FunctionArn_of (r : response) : M jsval :=
  match r with
  | RespLambda a => ret (JString a)
  | RespNull => throw
  | _ => ret JUndefined
  end.
Definition graphqlApis_names (r : response) : M (list string) :=
  match r with RespGraphqlApis l => ret l | _ => throw end.
Definition graphqlApi_apiId (r : response) : M string :=
  match r with RespGraphqlApi a => ret a | _ => throw end.
Definition apiKey_id (r : response) : M string :=
  match r with RespApiKey a => ret a | _ => throw end.
Definition functionConfiguration_functionId (r : response) : M string :=
  match r with RespFunctionConfiguration a => ret a | _ => throw end.
Definition resolvers_fieldNames (r : response) : M (list string) :=
  match r with
  | RespNull => ret []            (* [if (response != null)] *)
  | RespResolvers l => ret l
  | _ => throw
  end.
Definition DBClusters_0 (r : response) : M dbcluster :=
  match r with RespDBClusters (c :: _) => ret c | _ => throw end.
Definition DBSubnetGroups_0_Subnets (r : response) : M (list string) :=
  match r with RespDBSubnetGroups (g :: _) => ret g | _ => throw end.
Definition file_content (r : response) : M string :=
  match r with RespText t => ret t | _ => throw end.

Definition checkPipeline : M unit :=
  let* lambdaExists :=
    try_catch
      (let* s := get in
       send (ps s REGION)
            (GetFunctionCommand (to_str (ps s NAME) +:+ "LambdaFunction")) ;;
       ret true)
      (ret false) in
  let* appSyncExists :=
    try_catch
      (let* s := get in
       let* response := send (ps s REGION) (ListGraphqlApisCommand "GRAPHQL") in
       let* names := graphqlApis_names response in
       ret (existsb (fun name => String.eqb name (to_str (ps s NAME) +:+ "API"))
                    names))
      (ret false) in
  let* roleExists :=
    try_catch
      (let* s := get in
       let* response :=
         send (ps s REGION)
              (GetRoleCommand (to_str (ps s NAME) +:+ "LambdaExecutionRole")) in
       let* arn := Role_Arn response in
       set_ps LAMBDA_ROLE (JString arn) ;;
       ret true)
      (ret false) in
  when (lambdaExists && appSyncExists && roleExists)
       (set_pb pipelineExists true) ;;
  if lambdaExists && appSyncExists && roleExists then ret tt
  else if negb lambdaExists && negb appSyncExists && negb roleExists then ret tt
  else exit 1.

Definition storeResource (resource : gmap string jsval) : M unit :=
  let* s := get in
  set_RESOURCES (resource ∪ RESOURCES s) ;;
  let* s := get in
  perform (WriteJSON (ps s RESOURCES_FILE) (RESOURCES s)) ;;
  ret tt.

Definition setNeptuneDbClusterInfo : M unit :=
  let* s := get in
  let* data := send (ps s REGION)
                    (DescribeDBClustersCommand (ps s NEPTUNE_DB_NAME)) in
  let* cluster := DBClusters_0 data in
  let* response :=
    send (ps s REGION) (DescribeDBSubnetGroupsCommand (DBSubnetGroup cluster)) in
  set_ps NEPTUNE_HOST (JString (Endpoint cluster)) ;;
  set_ps NEPTUNE_PORT (JString (Port cluster)) ;;
  set_ps NEPTUNE_DBSubnetGroup (JString (DBSubnetGroup cluster)) ;;
  let* securityGroup := expect (head (VpcSecurityGroups cluster)) in
  set_ps NEPTUNE_VpcSecurityGroupId (JString securityGroup) ;;
  set_pb NEPTUNE_CURRENT_IAM (IAMDatabaseAuthenticationEnabled cluster) ;;
  set_ps NEPTUNE_CURRENT_VERSION (JString (EngineVersion cluster)) ;;
  set_ps NEPTUNE_IAM_POLICY_RESOURCE
    (JString (replace "rds" NEPTUNE_DB
                (before_last ":cluster" (DBClusterArn cluster))
              +:+ ":" +:+ DbClusterResourceId cluster +:+ "/*")) ;;
  let* subnets := DBSubnetGroups_0_Subnets response in
  let* s := get in
  set_NEPTUNE_DBSubnetIds (NEPTUNE_DBSubnetIds s ++ subnets).

Definition createLambdaRole : M unit :=
  let* s := get in
  let roleName := to_str (ps s NAME) +:+ "LambdaExecutionRole" in
  let* data := send (ps s REGION)
                    (CreateRoleCommand roleName "lambda.amazonaws.com") in
  let* arn := Role_Arn data in
  set_ps LAMBDA_ROLE (JString arn) ;;
  storeResource {[ "LambdaExecutionRole" := JString roleName ]} ;;
  let basic :=
    "arn:aws:iam::aws:policy/service-role/AWSLambdaBasicExecutionRole" in
  send (ps s REGION) (AttachRolePolicyCommand roleName basic) ;;
  storeResource {[ "LambdaExecutionPolicy1" := JString basic ]} ;;
  if pb s NEPTUNE_IAM_AUTH then
    let action :=
      if jsval_eqb (ps s NEPTUNE_TYPE) (JString NEPTUNE_DB) then
        [ "neptune-db:DeleteDataViaQuery"; "neptune-db:connect";
          "neptune-db:ReadDataViaQuery"; "neptune-db:WriteDataViaQuery" ]
      else [ "neptune-graph:*" ] in
    let* response :=
      send (ps s REGION)
           (CreatePolicyCommand (to_str (ps s NAME) +:+ "NeptuneQueryPolicy")
              action [ to_str (ps s NEPTUNE_IAM_POLICY_RESOURCE) ]) in
    let* policyARN := Policy_Arn response in
    storeResource {[ "NeptuneQueryPolicy" := JString policyARN ]} ;;
    send (ps s REGION) (AttachRolePolicyCommand roleName policyARN) ;;
    storeResource {[ "LambdaExecutionPolicy2" := JString policyARN ]}
  else
    let vpc :=
      "arn:aws:iam::aws:policy/service-role/AWSLambdaVPCAccessExecutionRole" in
    send (ps s REGION) (AttachRolePolicyCommand roleName vpc) ;;
    storeResource {[ "LambdaExecutionPolicy2" := JString vpc ]}.

Definition createDeploymentPackage (folderPath : jsval) : M jsval :=
  let* s := get in
  let zipFilePath :=
    to_str (ps s thisOutputFolderPath) +:+ "/" +:+ to_str (ps s NAME) +:+ ".zip" in
  let* fileContent :=
    perform (ZipFolder folderPath
               (to_str (ps s thisOutputFolderPath) +:+ "/output.resolver.graphql.js")
               zipFilePath) in
  let* content := file_content fileContent in
  ret (JString content).

Definition createLambdaFunction : M unit :=
  let* s := get in
  let* host := as_string (ps s NEPTUNE_HOST) in
  let* domain := lift_result (Util.parseNeptuneDomainFromHost host) in
  let params :=
    {| ZipFile := ps s ZIP;
       FunctionName := to_str (ps s NAME) +:+ "LambdaFunction";
       Role := ps s LAMBDA_ROLE;
       env_NEPTUNE_HOST := ps s NEPTUNE_HOST;
       env_NEPTUNE_PORT := ps s NEPTUNE_PORT;
       env_NEPTUNE_IAM_AUTH_ENABLED := bool_to_string (pb s NEPTUNE_IAM_AUTH);
       env_NEPTUNE_DB_NAME := ps s NEPTUNE_DB_NAME;
       env_NEPTUNE_REGION := ps s REGION;
       env_NEPTUNE_DOMAIN := domain;
       env_NEPTUNE_TYPE := ps s NEPTUNE_TYPE;
       VpcConfig :=
         if pb s NEPTUNE_IAM_AUTH then None
         else Some (NEPTUNE_DBSubnetIds s, ps s NEPTUNE_VpcSecurityGroupId) |} in
  let* data := send (ps s REGION) (LambdaCreateFunctionCommand params) in
  let* arn := FunctionArn_of data in
  set_ps LAMBDA_ARN arn ;;
  storeResource
    {[ "LambdaFunction" := JString (to_str (ps s NAME) +:+ "LambdaFunction") ]}.

Definition getSchemaFields (typeName : string) : M (list string) :=
  let* s := get in
  let* model := expect (SCHEMA_MODEL s) in
  let* defs := expect (definitions model) in
  ret (flat_map
         (fun def =>
            if String.eqb (kind def) "ObjectTypeDefinition"
               && String.eqb (name def) typeName
            then fields def else [])
         defs).

Definition attachResolverToSchemaField
    (client apiId functionId : jsval) (typeName fieldName : string) : M unit :=
  send client (CreateResolverCommand apiId typeName fieldName functionId) ;;
  ret tt.

Definition attachResolvers (client apiId functionId : jsval) : M unit :=
  let* s := get in
  let* queries := getSchemaFields "Query" in
  let* mutations :=
    if pb s ADD_MUTATIONS then getSchemaFields "Mutation" else ret [] in
  let* response := send client (ListResolversCommand apiId "Query") in
  let* existingQueries := resolvers_fieldNames response in
  for_of queries (fun query =>
    when (negb (existsb (String.eqb query) existingQueries))
         (attachResolverToSchemaField client apiId functionId "Query" query)) ;;
  when (pb s ADD_MUTATIONS)
    (let* response := send client (ListResolversCommand apiId "Mutation") in
     let* existingMutations := resolvers_fieldNames response in
     for_of mutations (fun mutation =>
       when (negb (existsb (String.eqb mutation) existingMutations))
            (attachResolverToSchemaField client apiId functionId
                                         "Mutation" mutation))).

Definition createAppSyncAPI : M unit :=
  let* s := get in
  let NAME_ := to_str (ps s NAME) in
  let* response :=
    send (ps s REGION)
         (CreatePolicyCommand (NAME_ +:+ "LambdaInvokePolicy")
            [ "lambda:invokeFunction" ]
            [ to_str (ps s LAMBDA_ARN); to_str (ps s LAMBDA_ARN) +:+ ":*" ]) in
  let* policyARN := Policy_Arn response in
  storeResource {[ "LambdaInvokePolicy" := JString policyARN ]} ;;
  let* response :=
    send (ps s REGION)
         (CreateRoleCommand (NAME_ +:+ "LambdaInvocationRole")
                            "appsync.amazonaws.com") in
  let* LAMBDA_INVOCATION_ROLE := Role_Arn response in
  storeResource
    {[ "LambdaInvokeRole" := JString (NAME_ +:+ "LambdaInvocationRole") ]} ;;
  send (ps s REGION)
       (AttachRolePolicyCommand (NAME_ +:+ "LambdaInvocationRole") policyARN) ;;
  let* response :=
    send (ps s REGION) (CreateGraphqlApiCommand (NAME_ +:+ "API")) in
  let* apiId := graphqlApi_apiId response in
  storeResource {[ "AppSyncAPI" := JString apiId ]} ;;
  let* response := send (ps s REGION) (CreateApiKeyCommand apiId) in
  let* apiKey := apiKey_id response in
  send (ps s REGION)
       (CreateDataSourceCommand apiId (NAME_ +:+ "DataSource")
                                LAMBDA_INVOCATION_ROLE (ps s LAMBDA_ARN)) ;;
  let* response :=
    send (ps s REGION)
         (AppSyncCreateFunctionCommand apiId (NAME_ +:+ "Function")
                                       (NAME_ +:+ "DataSource")) in
  let* functionId := functionConfiguration_functionId response in
  storeResource {[ "AppSyncAPIFunction" := JString functionId ]} ;;
  send (ps s REGION)
       (StartSchemaCreationCommand (JString apiId) (ps s APPSYNC_SCHEMA)) ;;
  attachResolvers (ps s REGION) (JString apiId) (JString functionId).

(** [try { await client.send(command); } catch (error) { }] *)
Definition try_send (region : jsval) (c : aws_command) : M unit :=
  try_catch (send region c ;; ret tt) (ret tt).

Definition removeAWSpipelineResources
    (resources : gmap string jsval) (quietI : bool) : M unit :=
  set_pb quiet quietI ;;
  let region := prop resources "region" in
  (* AppSync API *)
  try_send region (DeleteGraphqlApiCommand (prop resources "AppSyncAPI")) ;;
  (* Lambda *)
  try_send region (DeleteFunctionCommand (prop resources "LambdaFunction")) ;;
  (* Lambda execution role *)
  try_send region
    (DetachRolePolicyCommand (prop resources "LambdaExecutionPolicy1")
                             (prop resources "LambdaExecutionRole")) ;;
  try_send region
    (DetachRolePolicyCommand (prop resources "LambdaExecutionPolicy2")
                             (prop resources "LambdaExecutionRole")) ;;
  (* Neptune query policy: [resources.NeptuneQueryPolicy != undefined] *)
  when (match prop resources "NeptuneQueryPolicy" with
        | JString _ => true
        | _ => false
        end)
    (try_send region
       (DeletePolicyCommand (prop resources "NeptuneQueryPolicy"))) ;;
  try_send region (DeleteRoleCommand (prop resources "LambdaExecutionRole")) ;;
  (* AppSync Lambda role *)
  try_send region
    (DetachRolePolicyCommand (prop resources "LambdaInvokePolicy")
                             (prop resources "LambdaInvokeRole")) ;;
  try_send region (DeletePolicyCommand (prop resources "LambdaInvokePolicy")) ;;
  try_send region (DeleteRoleCommand (prop resources "LambdaInvokeRole")).

Definition updateLambdaFunction (resources : gmap string jsval) : M unit :=
  let* s := get in
  send (prop resources "region")
       (UpdateFunctionCodeCommand (prop resources "LambdaFunction") (ps s ZIP)) ;;
  ret tt.

Definition updateAppSyncAPI (resources : gmap string jsval) : M unit :=
  let* s := get in
  send (prop resources "region")
       (StartSchemaCreationCommand (prop resources "AppSyncAPI")
                                   (ps s APPSYNC_SCHEMA)) ;;
  attachResolvers (prop resources "region") (prop resources "AppSyncAPI")
                  (prop resources "AppSyncAPIFunction").

(** The versions of Neptune that predate the SDK query. *)
Definition versions_without_SDK : list string :=
  [ "1.2.1.0"; "1.2.0.2"; "1.2.0.1"; "1.2.0.0"; "1.1.1.0"; "1.1.0.0" ].

(** The assignments at the head of [createUpdateAWSpipeline]. *)
Definition setPipelineVariables (a : pipeline_args Model) : M unit :=
  set_ps NAME (pipelineName a) ;;
  set_ps REGION (neptuneDBregion a) ;;
  set_ps NEPTUNE_DB_NAME (neptuneDBName a) ;;
  set_ps APPSYNC_SCHEMA (appSyncSchema a) ;;
  set_SCHEMA_MODEL (Some (World.schemaModel a)) ;;
  set_ps LAMBDA_FILES_PATH (JString (lambdaFilesPath a)) ;;
  set_ps RESOURCES_FILE
    (JString (to_str (World.outputFolderPath a) +:+ "/" +:+
              to_str (pipelineName a) +:+ "-resources.json")) ;;
  set_pb ADD_MUTATIONS (addMutations a) ;;
  set_pb quiet (World.quietI a) ;;
  set_pb NEPTUNE_IAM_AUTH (World.isNeptuneIAMAuth a) ;;
  set_ps NEPTUNE_HOST (neptuneHost a) ;;
  set_ps NEPTUNE_PORT (neptunePort a) ;;
  set_ps thisOutputFolderPath (World.outputFolderPath a) ;;
  set_ps NEPTUNE_TYPE (World.neptuneType a).

(** The [try] block inside [if (NEPTUNE_TYPE === NEPTUNE_DB)] with its
    [catch]. *)
Definition getNeptuneClusterInfo (a : pipeline_args Model) : M unit :=
  try_catch
    (setNeptuneDbClusterInfo ;;
     let* s := get in
     (if World.isNeptuneIAMAuth a then
        when (negb (pb s NEPTUNE_CURRENT_IAM)) (exit 1)
      else
        when (pb s NEPTUNE_CURRENT_IAM) (exit 1)) ;;
     when (loose_nonempty (ps s NEPTUNE_CURRENT_VERSION))
       (when (includes "SDK" (lambdaFilesPath a)
              && existsb (fun v => jsval_eqb (ps s NEPTUNE_CURRENT_VERSION)
                                             (JString v))
                         versions_without_SDK)
             (exit 1)))
    (when (negb (World.isNeptuneIAMAuth a)) (exit 1)).

(** The body of the [try] block of [createUpdateAWSpipeline] that creates
    the resources of a new pipeline. *)
Definition createResources (a : pipeline_args Model) : M unit :=
  let* s := get in
  storeResource {[ "region" := ps s REGION ]} ;;
  when (jsval_eqb (ps s NEPTUNE_TYPE) (JString NEPTUNE_DB))
       (getNeptuneClusterInfo a) ;;
  let* zip := createDeploymentPackage (ps s LAMBDA_FILES_PATH) in
  set_ps ZIP zip ;;
  createLambdaRole ;;
  createLambdaFunction ;;
  createAppSyncAPI.

(** The [else] branch of [createUpdateAWSpipeline]: the pipeline exists.
    The inner [try] returns from the function when the resources file
    cannot be loaded. *)
Definition updateResources : M unit :=
  let* s := get in
  let* loaded :=
    try_catch
      (let* r := perform (ReadFileSync (ps s RESOURCES_FILE)) in
       let* text := file_content r in
       let* resources := expect (JSON_parse (JString text)) in
       ret (Some resources))
      (ret None) in
  match loaded with
  | None => ret tt
  | Some resources =>
      let* zip := createDeploymentPackage (ps s LAMBDA_FILES_PATH) in
      set_ps ZIP zip ;;
      updateLambdaFunction resources ;;
      updateAppSyncAPI resources
  end.

Definition createUpdateAWSpipeline (a : pipeline_args Model) : M unit :=
  setPipelineVariables a ;;
  checkPipeline ;;
  let* s := get in
  if negb (pb s pipelineExists) then
    try_catch
      (createResources a)
      (let* s := get in
       removeAWSpipelineResources (RESOURCES s) (pb s quiet))
  else
    updateResources.

End Pipeline.
End Pipeline.

(* ===================================================================== *)
(** * main.js *)
(* ===================================================================== *)

Module Main.
Import Js World Eff.
Import MainVar.
Local Open Scope eff_scope.

(** neptune-graph is neptune analytics *)
Definition NEPTUNE_GRAPH : string := "neptune-graph".
Definition NEPTUNE_DB : string := "neptune-db".

(** [case a: case b: ...] of the [switch (val)] in [processArgs]. *)
Definition is_case (val : string) (labels : list string) : bool :=
  existsb (String.eqb val) labels.

Section Main.
Context {World Model : Type} `{!Collaborators World Model}.

Local Abbreviation M := (@Eff.M World Model).

(** The body of the [forEach] callback of [processArgs]. *)
Definition processArg (array : list string) (val : string) (index : nat)
  : M unit :=
  let next := Js.index array (index + 1) in
  if is_case val ["--help"; "--h"; "-help"; "-h"] then exit 0
  else if is_case val ["--version"; "--v"; "-version"; "-v"] then exit 0
  else if is_case val ["-q"; "--quiet"] then set_mb quiet true
  else if is_case val ["-is"; "--input-schema"] then
    set_ms inputGraphQLSchema next
  else if is_case val ["-isf"; "--input-schema-file"] then
    set_ms inputGraphQLSchemaFile next
  else if is_case val ["-ig"; "--input-graphdb-schema"] then
    set_ms inputGraphDBSchema next
  else if is_case val ["-igf"; "--input-graphdb-schema-file"] then
    set_ms inputGraphDBSchemaFile next
  else if is_case val ["-isc"; "--input-schema-changes-file"] then
    set_ms inputGraphQLSchemaChangesFile next
  else if is_case val ["-ie"; "--input-graphdb-schema-neptune-endpoint"] then
    set_ms inputGraphDBSchemaNeptuneEndpoint next
  else if is_case val ["-os"; "--output-schema-file"] then
    set_ms outputSchemaFile next
  else if is_case val ["-oss"; "--output-source-schema-file"] then
    set_ms outputSourceSchemaFile next
  else if is_case val ["-onm"; "--output-schema-no-mutations"] then
    set_mb outputSchemaMutations false
  else if is_case val ["-olr"; "--output-lambda-resolver-file"] then
    set_ms outputLambdaResolverFile next
  else if is_case val ["-or"; "--output-js-resolver-file"] then
    set_ms outputJSResolverFile next
  else if is_case val ["-og"; "--output-neptune-schema-file"] then
    set_ms outputNeptuneSchemaFile next
  else if is_case val ["-org"; "--output-resolver-query-gremlin"] then
    set_ms queryLanguage (JString "gremlin")
  else if is_case val ["-oro"; "--output-resolver-query-opencypher"] then
    set_ms queryLanguage (JString "opencypher")
  else if is_case val ["-orc"; "--output-resolver-query-client"] then
    set_ms queryClient (JString "client")
  else if is_case val ["-orh"; "--output-resolver-query-https"] then
    set_ms queryClient (JString "http")
  else if is_case val ["-ors"; "--output-resolver-query-sdk"] then
    set_ms queryClient (JString "sdk")
  else if is_case val ["-p"; "--create-update-aws-pipeline"] then
    set_mb createUpdatePipeline true
  else if is_case val ["-pn"; "--create-update-aws-pipeline-name"] then
    set_ms createUpdatePipelineName next
  else if is_case val ["-pr"; "--create-update-aws-pipeline-region"] then
    set_ms createUpdatePipelineRegion next
  else if is_case val
            ["-pe"; "--create-update-aws-pipeline-neptune-endpoint"] then
    set_ms createUpdatePipelineEndpoint next
  else if is_case val
            ["-pd"; "--create-update-aws-pipeline-neptune-database-name"] then
    set_ms createUpdatePipelineNeptuneDatabaseName next
  else if is_case val ["-rp"; "--remove-aws-pipeline-name"] then
    set_ms removePipelineName next
  else if is_case val ["-c"; "--output-aws-pipeline-cdk"] then
    set_mb inputCDKpipeline true
  else if is_case val ["-ce"; "--output-aws-pipeline-cdk-neptune-endpoint"] then
    set_ms inputCDKpipelineEnpoint next
  else if is_case val
            ["-cd"; "--output-aws-pipeline-cdk-neptune-database-name"] then
    set_ms inputCDKpipelineDatabaseName next
  else if is_case val ["-cn"; "--output-aws-pipeline-cdk-name"] then
    set_ms inputCDKpipelineName next
  else if is_case val ["-cr"; "--output-aws-pipeline-cdk-region"] then
    set_ms inputCDKpipelineRegion next
  else if is_case val ["-cf"; "--output-aws-pipeline-cdk-file"] then
    set_ms inputCDKpipelineFile next
  else if is_case val ["-oln"; "--output-lambda-resolver-zip-name"] then
    set_ms outputLambdaResolverZipName next
  else if is_case val ["-olf"; "--output-lambda-resolver-zip-file"] then
    set_ms outputLambdaResolverZipFile next
  else if is_case val ["-pi"; "--create-update-aws-pipeline-neptune-IAM"] then
    set_mb isNeptuneIAMAuth true
  else if is_case val ["-ci"; "--output-aws-pipeline-cdk-neptune-IAM"] then
    set_mb isNeptuneIAMAuth true
  else if is_case val ["-onl"; "--output-no-lambda-zip"] then
    set_mb createLambdaZip false
  else if is_case val ["-o"; "--output-folder-path"] then
    set_ms outputFolderPath next
  else ret tt.

Definition processArgs (argv : list string) : M unit :=
  forEach_from 0 argv (processArg argv).

(** [x = readFileSync(file, 'utf8')] inside [try], with
    [process.exit(1)] in the [catch]. *)
Definition readFileOrExit (x : svar) (file : jsval) : M unit :=
  try_catch
    (let* r := perform (ReadFileSync file) in
     match r with
     | RespText text => set_ms x (JString text)
     | _ => throw
     end)
    (exit 1).

(** [try { writeFileSync(file, data); } catch (err) { }] *)
Definition tryWriteFile (file data : jsval) : M unit :=
  try_catch (perform (WriteFileSync file data) ;; ret tt) (ret tt).

(** [parseNeptuneDomainFromEndpoint] of util.js on a value of main.js. *)
Definition parseNeptuneDomainFromEndpoint (endpoint : jsval) : M string :=
  let* e := as_string endpoint in
  lift_result (Util.parseNeptuneDomainFromEndpoint e).

(** Get graphDB schema from file *)
Definition getGraphDBSchemaFromFile : M unit :=
  let* s := get in
  when (loose_nonempty (ms s inputGraphDBSchemaFile)
        && loose_empty (ms s inputGraphQLSchema)
        && loose_empty (ms s inputGraphQLSchemaFile))
       (readFileOrExit inputGraphDBSchema (ms s inputGraphDBSchemaFile)).

(** The endpoints that the check for a neptune analytics endpoint
    looks at. *)
Definition nonEmptyEndpoints (s : @state World Model) : list jsval :=
  List.filter strict_nonempty
         [ ms s inputGraphDBSchemaNeptuneEndpoint;
           ms s createUpdatePipelineEndpoint;
           ms s inputCDKpipelineEnpoint ].

(** Check if any of the Neptune endpoints are a neptune analytic endpoint
    and if so, set the neptuneType and IAM to required *)
Definition checkNeptuneAnalytics : M unit :=
  let* s := get in
  let* isNeptuneAnalyticsGraph :=
    match nonEmptyEndpoints s with
    | [] => ret false
    | endpoint :: _ =>
        let* domain := parseNeptuneDomainFromEndpoint endpoint in
        ret (includes NEPTUNE_GRAPH domain)
    end in
  when isNeptuneAnalyticsGraph
    (set_ms neptuneType (JString NEPTUNE_GRAPH) ;;
     set_mb isNeptuneIAMAuth true).

(** Get Neptune schema from endpoint *)
Definition getNeptuneSchemaFromEndpoint : M unit :=
  let* s := get in
  when (loose_nonempty (ms s inputGraphDBSchemaNeptuneEndpoint)
        && loose_empty (ms s inputGraphDBSchema)
        && loose_empty (ms s inputGraphDBSchemaFile))
    (let* endpoint := as_string (ms s inputGraphDBSchemaNeptuneEndpoint) in
     let endpointParts := split ":" endpoint in
     when (negb (Nat.eqb (length endpointParts) 2)) (exit 1) ;;
     let neptuneHost := index endpointParts 0 in
     let neptunePort := index endpointParts 1 in
     let neptuneRegionParts := split "." endpoint in
     let neptuneRegion :=
       if jsval_eqb (ms s neptuneType) (JString NEPTUNE_DB)
       then index neptuneRegionParts 2
       else index neptuneRegionParts 1 in
     call_out (Call_setGetNeptuneSchemaParameters
                 neptuneHost neptunePort neptuneRegion true
                 (ms s neptuneType)) ;;
     let* schema := call_out (Call_getNeptuneSchema (mb s quiet)) in
     set_ms inputGraphDBSchema schema).

(** Option 2: inference GraphQL schema from graphDB schema *)
Definition inferenceGraphQLSchema : M unit :=
  let* s := get in
  when (loose_nonempty (ms s inputGraphDBSchema)
        && loose_empty (ms s inputGraphQLSchema)
        && loose_empty (ms s inputGraphQLSchemaFile))
    (let* schema :=
       call_pass (Call_graphDBInferenceSchema (ms s inputGraphDBSchema)
                                              (mb s outputSchemaMutations))
                 (graphDBInferenceSchema (ms s inputGraphDBSchema)
                                         (mb s outputSchemaMutations)) in
     set_ms inputGraphQLSchema schema).

(** Option 1: load *)
Definition loadGraphQLSchema : M unit :=
  let* s := get in
  when (loose_empty (ms s inputGraphQLSchema)
        && loose_nonempty (ms s inputGraphQLSchemaFile))
       (readFileOrExit inputGraphQLSchema (ms s inputGraphQLSchemaFile)).

(** Changes *)
Definition loadChanges : M unit :=
  let* s := get in
  when (loose_nonempty (ms s inputGraphQLSchemaChangesFile))
       (readFileOrExit inputGraphQLSchemaChanges
                       (ms s inputGraphQLSchemaChangesFile)).

(** AWS pipeline *)
Definition prepareAWSpipeline : M unit :=
  let* s := get in
  when (mb s createUpdatePipeline)
    (when (not_then_loose_empty (ms s inputGraphDBSchemaNeptuneEndpoint)
           && loose_empty (ms s createUpdatePipelineEndpoint))
          (set_ms createUpdatePipelineEndpoint
                  (ms s inputGraphDBSchemaNeptuneEndpoint)) ;;
     let* s := get in
     when (loose_empty (ms s createUpdatePipelineEndpoint)
           && loose_empty (ms s createUpdatePipelineRegion)
           && loose_empty (ms s createUpdatePipelineNeptuneDatabaseName))
          (exit 1) ;;
     when (loose_empty (ms s createUpdatePipelineEndpoint)
           && not_then_loose_empty (ms s createUpdatePipelineRegion)
           && loose_empty (ms s createUpdatePipelineNeptuneDatabaseName))
          (exit 1) ;;
     when (loose_empty (ms s createUpdatePipelineEndpoint)
           && loose_empty (ms s createUpdatePipelineRegion)
           && not_then_loose_empty
                (ms s createUpdatePipelineNeptuneDatabaseName))
          (exit 1) ;;
     when (loose_nonempty (ms s createUpdatePipelineEndpoint))
       (let* endpoint := as_string (ms s createUpdatePipelineEndpoint) in
        let parts := split "." endpoint in
        set_ms createUpdatePipelineNeptuneDatabaseName (index parts 0) ;;
        let parsedRegion :=
          if jsval_eqb (ms s neptuneType) (JString NEPTUNE_DB)
          then index parts 2 else index parts 1 in
        when (negb (jsval_eqb (ms s createUpdatePipelineRegion) parsedRegion))
             (set_ms createUpdatePipelineRegion parsedRegion)) ;;
     let* s := get in
     when (loose_empty (ms s createUpdatePipelineName))
          (set_ms createUpdatePipelineName
                  (ms s createUpdatePipelineNeptuneDatabaseName))).

(** CDK *)
Definition prepareCDK : M unit :=
  let* s := get in
  when (mb s inputCDKpipeline)
    (when (not_then_loose_empty (ms s inputGraphDBSchemaNeptuneEndpoint))
          (set_ms inputCDKpipelineEnpoint
                  (ms s inputGraphDBSchemaNeptuneEndpoint)) ;;
     let* s := get in
     when (loose_empty (ms s inputCDKpipelineEnpoint)
           && loose_empty (ms s inputCDKpipelineRegion)
           && loose_empty (ms s inputCDKpipelineDatabaseName))
          (exit 1) ;;
     when (loose_empty (ms s inputCDKpipelineEnpoint)
           && not_then_loose_empty (ms s inputCDKpipelineRegion)
           && loose_empty (ms s inputCDKpipelineDatabaseName))
          (exit 1) ;;
     when (loose_empty (ms s inputCDKpipelineEnpoint)
           && loose_empty (ms s inputCDKpipelineRegion)
           && not_then_loose_empty (ms s inputCDKpipelineDatabaseName))
          (exit 1) ;;
     when (loose_nonempty (ms s inputCDKpipelineEnpoint))
       (let* endpoint := as_string (ms s inputCDKpipelineEnpoint) in
        let parts := split "." endpoint in
        set_ms inputCDKpipelineDatabaseName (index parts 0) ;;
        set_ms inputCDKpipelineRegion (index parts 2)) ;;
     let* s := get in
     when (loose_empty (ms s inputCDKpipelineName))
          (set_ms inputCDKpipelineName (ms s inputCDKpipelineDatabaseName))).

(** Apply changes *)
Definition applyChanges : M unit :=
  let* s := get in
  when (loose_nonempty (ms s inputGraphQLSchemaChanges))
    (let* schema :=
       call_pass (Call_changeGraphQLSchema (ms s inputGraphQLSchema)
                                           (ms s inputGraphQLSchemaChanges))
                 (changeGraphQLSchema (ms s inputGraphQLSchema)
                                      (ms s inputGraphQLSchemaChanges)) in
     set_ms inputGraphQLSchema schema).

(** [resolverJS(schemaModel, queryLanguage, queryClient, __dirname)] *)
Definition generateResolver : M jsval :=
  let* s := get in
  call_pass (Call_resolverJS (schemaModel s) (ms s queryLanguage)
                             (ms s queryClient) __dirname)
            (resolverJS (schemaModel s) (ms s queryLanguage)
                        (ms s queryClient) __dirname).

(** Parse schema, validate schema, generate the resolvers *)
Definition parseValidateGenerate : M unit :=
  let* s := get in
  when (loose_nonempty (ms s inputGraphQLSchema))
    (let* model :=
       call_pass (Call_schemaParser (ms s inputGraphQLSchema))
                 (schemaParser (ms s inputGraphQLSchema)) in
     set_schemaModel model ;;
     let* validated :=
       call_pass (Call_validatedSchemaModel model (mb s quiet))
                 (validatedSchemaModel model (mb s quiet)) in
     set_schemaModel validated ;;
     (* Generate AWS Lambda resolver for AppSync and Amazon Neptune *)
     let* resolver := generateResolver in
     set_ms outputLambdaResolver resolver ;;
     (* Generate generic Javascript resolver *)
     let* resolver := generateResolver in
     set_ms outputJSResolver resolver).

(** Init output folder *)
Definition initOutputFolder : M unit :=
  let* s := get in
  perform (MkdirSync (ms s outputFolderPath)) ;;
  ret tt.

(** [outputFolderPath + '/output' + suffix] when no pipeline name is set,
    [`${outputFolderPath}/${createUpdatePipelineName}` + suffix]
    otherwise. *)
Definition defaultOutputFile (s : @state World Model) (suffix : string)
  : jsval :=
  if loose_empty (ms s createUpdatePipelineName) then
    JString (to_str (ms s outputFolderPath) +:+ "/output" +:+ suffix)
  else
    JString (to_str (ms s outputFolderPath) +:+ "/" +:+
             to_str (ms s createUpdatePipelineName) +:+ suffix).

(** Output GraphQL schema no directives *)
Definition outputClientSchema : M unit :=
  let* s := get in
  let* text :=
    call_pass (Call_schemaStringify (schemaModel s) false)
              (schemaStringify (schemaModel s) false) in
  set_ms outputSchema text ;;
  when (loose_empty (ms s outputSchemaFile))
       (set_ms outputSchemaFile (defaultOutputFile s ".schema.graphql")) ;;
  let* s := get in
  tryWriteFile (ms s outputSchemaFile) (ms s outputSchema).

(** Output GraphQL schema with directives *)
Definition outputSourceSchema_ : M unit :=
  let* s := get in
  let* text :=
    call_pass (Call_schemaStringify (schemaModel s) true)
              (schemaStringify (schemaModel s) true) in
  set_ms outputSourceSchema text ;;
  when (loose_empty (ms s outputSourceSchemaFile))
       (set_ms outputSourceSchemaFile
               (defaultOutputFile s ".source.schema.graphql")) ;;
  let* s := get in
  tryWriteFile (ms s outputSourceSchemaFile) (ms s outputSourceSchema).

(** Output Neptune schema *)
Definition outputNeptuneSchema : M unit :=
  let* s := get in
  when (loose_empty (ms s outputNeptuneSchemaFile))
       (set_ms outputNeptuneSchemaFile
               (defaultOutputFile s ".neptune.schema.json")) ;;
  let* s := get in
  tryWriteFile (ms s outputNeptuneSchemaFile) (ms s inputGraphDBSchema).

(** Output Lambda resolver *)
Definition outputLambdaResolver_ : M unit :=
  let* s := get in
  when (loose_empty (ms s outputLambdaResolverFile))
       (set_ms outputLambdaResolverFile
          (JString (to_str (ms s outputFolderPath)
                    +:+ "/output.resolver.graphql.js"))) ;;
  let* s := get in
  tryWriteFile (ms s outputLambdaResolverFile) (ms s outputLambdaResolver).

(** Output Javascript resolver *)
Definition outputJSResolver_ : M unit :=
  let* s := get in
  when (loose_empty (ms s outputJSResolverFile))
       (set_ms outputJSResolverFile
               (defaultOutputFile s ".resolver.graphql.js")) ;;
  let* s := get in
  tryWriteFile (ms s outputJSResolverFile) (ms s outputJSResolver).

(** The [switch (queryClient)] that selects the Lambda template. *)
Definition selectLambdaPackage : M unit :=
  let* s := get in
  if jsval_eqb (ms s queryClient) (JString "http") then
    set_ms outputLambdaPackagePath (JString "/../templates/Lambda4AppSyncHTTP")
  else if jsval_eqb (ms s queryClient) (JString "sdk") then
    if jsval_eqb (ms s neptuneType) (JString NEPTUNE_DB) then
      set_ms outputLambdaPackagePath
             (JString "/../templates/Lambda4AppSyncSDK")
    else
      set_ms outputLambdaPackagePath
             (JString "/../templates/Lambda4AppSyncGraphSDK")
  else ret tt.

(** [__dirname + outputLambdaPackagePath] *)
Definition lambdaPackageFolder (s : @state World Model) : string :=
  __dirname +:+ to_str (ms s outputLambdaPackagePath).

(** Output Lambda Zip file *)
Definition outputLambdaZip : M unit :=
  let* s := get in
  when (negb (mb s createUpdatePipeline || mb s inputCDKpipeline)
        && mb s createLambdaZip)
    (when (loose_empty (ms s outputLambdaResolverZipFile)
           && loose_empty (ms s outputLambdaResolverZipName))
          (set_ms outputLambdaResolverZipFile
             (JString (to_str (ms s outputFolderPath)
                       +:+ "/output.lambda.zip"))) ;;
     let* s := get in
     when (loose_empty (ms s outputLambdaResolverZipFile)
           && loose_nonempty (ms s outputLambdaResolverZipName))
          (set_ms outputLambdaResolverZipFile
             (JString (to_str (ms s outputFolderPath) +:+ "/" +:+
                       to_str (ms s outputLambdaResolverZipName)
                       +:+ ".zip"))) ;;
     let* s := get in
     try_catch
       (call_out (Call_createLambdaDeploymentPackage
                    (lambdaPackageFolder s)
                    (ms s outputLambdaResolverZipFile)) ;;
        ret tt)
       (ret tt)).

(** The arguments that main.js passes to [createUpdateAWSpipeline]. *)
Definition pipelineArguments (s : @state World Model)
    (neptuneHost neptunePort : jsval) : pipeline_args Model :=
  {| pipelineName := ms s createUpdatePipelineName;
     neptuneDBName := ms s createUpdatePipelineNeptuneDatabaseName;
     neptuneDBregion := ms s createUpdatePipelineRegion;
     appSyncSchema := ms s outputSchema;
     World.schemaModel := schemaModel s;
     lambdaFilesPath := lambdaPackageFolder s;
     addMutations := mb s outputSchemaMutations;
     World.quietI := mb s quiet;
     dirname := __dirname;
     World.isNeptuneIAMAuth := mb s isNeptuneIAMAuth;
     World.neptuneHost := neptuneHost;
     World.neptunePort := neptunePort;
     World.outputFolderPath := ms s outputFolderPath;
     World.neptuneType := ms s neptuneType |}.

(** Create Update AWS Pipeline *)
Definition outputAWSpipeline : M unit :=
  let* s := get in
  when (mb s createUpdatePipeline)
    (try_catch
       (let* endpoint := as_string (ms s createUpdatePipelineEndpoint) in
        let endpointParts := split ":" endpoint in
        when (length endpointParts <? 2)%nat (exit 1) ;;
        let args :=
          pipelineArguments s (index endpointParts 0) (index endpointParts 1) in
        enter (Call_createUpdateAWSpipeline args) ;;
        Pipeline.createUpdateAWSpipeline args)
       (ret tt)).

(** The object that main.js passes to [createAWSpipelineCDK]. *)
Definition cdkArguments (s : @state World Model)
    (neptuneHost neptunePort : jsval) : cdk_args Model :=
  {| cdk_pipelineName := ms s inputCDKpipelineName;
     cdk_neptuneDBName := ms s inputCDKpipelineDatabaseName;
     cdk_neptuneDBregion := ms s inputCDKpipelineRegion;
     cdk_appSyncSchema := ms s outputSchema;
     cdk_schemaModel := schemaModel s;
     cdk_lambdaFilesPath := lambdaPackageFolder s;
     cdk_outputFile := ms s inputCDKpipelineFile;
     cdk_dirname := __dirname;
     cdk_quiet := mb s quiet;
     cdk_isNeptuneIAMAuth := mb s isNeptuneIAMAuth;
     cdk_neptuneHost := neptuneHost;
     cdk_neptunePort := neptunePort;
     cdk_outputFolderPath := ms s outputFolderPath;
     cdk_neptuneType := ms s neptuneType |}.

(** Output CDK *)
Definition outputCDK : M unit :=
  let* s := get in
  when (mb s inputCDKpipeline)
    (try_catch
       (let* endpoint := as_string (ms s inputCDKpipelineEnpoint) in
        let endpointParts := split ":" endpoint in
        when (length endpointParts <? 2)%nat (exit 1) ;;
        when (loose_empty (ms s inputCDKpipelineFile))
             (set_ms inputCDKpipelineFile
                (JString (to_str (ms s outputFolderPath) +:+ "/" +:+
                          to_str (ms s inputCDKpipelineName) +:+ "-cdk.js"))) ;;
        let* s := get in
        call_out (Call_createAWSpipelineCDK
                    (cdkArguments s (index endpointParts 0)
                                  (index endpointParts 1))) ;;
        ret tt)
       (ret tt)).

(** The block [if (inputGraphQLSchema != '') { ... }] under "Outputs". *)
Definition outputs : M unit :=
  let* s := get in
  when (loose_nonempty (ms s inputGraphQLSchema))
    (outputClientSchema ;;
     outputSourceSchema_ ;;
     outputNeptuneSchema ;;
     outputLambdaResolver_ ;;
     outputJSResolver_ ;;
     selectLambdaPackage ;;
     outputLambdaZip ;;
     outputAWSpipeline ;;
     outputCDK).

(** Remove AWS Pipeline *)
Definition removePipeline : M unit :=
  let* s := get in
  when (loose_nonempty (ms s removePipelineName))
    (let resourcesFile :=
       JString (to_str (ms s outputFolderPath) +:+ "/" +:+
                to_str (ms s removePipelineName) +:+ "-resources.json") in
     let* resourcesToRemove :=
       try_catch
         (let* r := perform (ReadFileSync resourcesFile) in
          match r with
          | RespText text => ret (JString text)
          | _ => throw
          end)
         (exit 1) in
     let* resources := expect (JSON_parse resourcesToRemove) in
     enter (Call_removeAWSpipelineResources resources (mb s quiet)) ;;
     Pipeline.removeAWSpipelineResources resources (mb s quiet)).

Definition main (argv : list string) : M unit :=
  when (length argv <=? 2)%nat (exit 0) ;;
  processArgs argv ;;
  getGraphDBSchemaFromFile ;;
  checkNeptuneAnalytics ;;
  getNeptuneSchemaFromEndpoint ;;
  inferenceGraphQLSchema ;;
  loadGraphQLSchema ;;
  loadChanges ;;
  prepareAWSpipeline ;;
  prepareCDK ;;
  applyChanges ;;
  parseValidateGenerate ;;
  initOutputFolder ;;
  outputs ;;
  removePipeline.

End Main.
End Main.

(* ===================================================================== *)
(** * Specifications: invariants and traces *)
(* ===================================================================== *)

Module Spec.
Import Js World Eff Main.
Import MainVar.
Local Open Scope list_scope.
Local Open Scope eff_scope.

(** ** Options on the command line *)

(** Some argument is one of [labels]. *)
Definition hasOption (labels : list string) (argv : list string) : bool :=
  existsb (fun val => is_case val labels) argv.

Definition noMutationsLabels : list string :=
  ["-onm"; "--output-schema-no-mutations"].

Definition iamLabels : list string :=
  ["-pi"; "--create-update-aws-pipeline-neptune-IAM";
   "-ci"; "--output-aws-pipeline-cdk-neptune-IAM"].

Definition clientSchemaLabels : list string := ["-os"; "--output-schema-file"].

Definition sourceSchemaLabels : list string :=
  ["-oss"; "--output-source-schema-file"].

Section Spec.
Context {World Model : Type} `{!Collaborators World Model}.

Local Abbreviation M := (@Eff.M World Model).
Local Abbreviation state := (@Eff.state World Model).

(** From [s] to [s'] the trace has grown by events that satisfy [P]. *)
Definition extends (P : event Model -> Prop) (s s' : state) : Prop :=
  exists l, trace s' = trace s ++ l /\ Forall P l.

(** Run from [s], the computation [m] ends (however it ends) in a state in
    which the invariant [I] still holds, and it has only added events that
    satisfy [P] to the trace. *)
Definition keeps_at (I : state -> Prop) (P : event Model -> Prop)
    {A} (m : M A) (s : state) : Prop :=
  I s -> I (final (m s)) /\ extends P s (final (m s)).

Definition keeps (I : state -> Prop) (P : event Model -> Prop)
    {A} (m : M A) : Prop :=
  forall s, keeps_at I P m s.

(** ** checkPipeline: what the three lookups find *)

Definition lookupLambda (s : state) : option response * World :=
  library (Send (ps s PipeVar.REGION)
             (GetFunctionCommand
                (to_str (ps s PipeVar.NAME) +:+ "LambdaFunction")))
          (world s).

Definition lookupApis (s : state) : option response * World :=
  library (Send (ps s PipeVar.REGION) (ListGraphqlApisCommand "GRAPHQL"))
          (snd (lookupLambda s)).

Definition lookupRole (s : state) : option response * World :=
  library (Send (ps s PipeVar.REGION)
             (GetRoleCommand
                (to_str (ps s PipeVar.NAME) +:+ "LambdaExecutionRole")))
          (snd (lookupApis s)).

(** The Lambda function NAME + 'LambdaFunction' exists. *)
Definition lambdaExists (s : state) : bool :=
  match fst (lookupLambda s) with
  | Some _ => true
  | None => false
  end.

(** An AppSync API called NAME + 'API' is listed. *)
Definition appSyncExists (s : state) : bool :=
  match fst (lookupApis s) with
  | Some (RespGraphqlApis names) =>
      existsb (fun name =>
                 String.eqb name (to_str (ps s PipeVar.NAME) +:+ "API"))
              names
  | _ => false
  end.

(** The IAM role NAME + 'LambdaExecutionRole' exists. *)
Definition roleExists (s : state) : bool :=
  match fst (lookupRole s) with
  | Some (RespRole _) => true
  | _ => false
  end.

(** ** The resources file and the rollback *)

(** The object that an event writes to the resources file. *)
Definition stored (e : event Model) : option (gmap string jsval) :=
  match e with
  | Lib (WriteJSON _ object) => Some object
  | _ => None
  end.

(** The object most recently written to the resources file. *)
Fixpoint lastStored (tr : list (event Model)) : option (gmap string jsval) :=
  match tr with
  | [] => None
  | e :: rest =>
      match lastStored rest with
      | Some object => Some object
      | None => stored e
      end
  end.

(** [RESOURCES] is what was last written to the resources file. *)
Definition recorded (s : state) : Prop :=
  lastStored (trace s) = Some (RESOURCES s).

(** The commands that [removeAWSpipelineResources] sends for [resources],
    in order. *)
Definition removalCommands (resources : gmap string jsval) : list command :=
  let region := prop resources "region" in
  map (Send region)
    ([ DeleteGraphqlApiCommand (prop resources "AppSyncAPI");
       DeleteFunctionCommand (prop resources "LambdaFunction");
       DetachRolePolicyCommand (prop resources "LambdaExecutionPolicy1")
                               (prop resources "LambdaExecutionRole");
       DetachRolePolicyCommand (prop resources "LambdaExecutionPolicy2")
                               (prop resources "LambdaExecutionRole") ]
     ++ match prop resources "NeptuneQueryPolicy" with
        | JString policy => [ DeletePolicyCommand (JString policy) ]
        | _ => []
        end
     ++ [ DeleteRoleCommand (prop resources "LambdaExecutionRole");
          DetachRolePolicyCommand (prop resources "LambdaInvokePolicy")
                                  (prop resources "LambdaInvokeRole");
          DeletePolicyCommand (prop resources "LambdaInvokePolicy");
          DeleteRoleCommand (prop resources "LambdaInvokeRole") ]).

(** The state after a library call [c] whose result is dropped. *)
Definition after (c : command) (s : state) : state :=
  record (Lib c) (snd (library c (world s))) s.


(** ** The phases of [main] *)

(** [main] up to the check for a neptune analytics endpoint. *)
Definition readArguments (argv : list string) : M unit :=
  when (length argv <=? 2)%nat (exit 0) ;;
  processArgs argv ;;
  getGraphDBSchemaFromFile.

Definition detection (argv : list string) : M unit :=
  readArguments argv ;; checkNeptuneAnalytics.

(** [main] after the check for a neptune analytics endpoint. *)
Definition afterDetection : M unit :=
  getNeptuneSchemaFromEndpoint ;;
  inferenceGraphQLSchema ;; loadGraphQLSchema ;; loadChanges ;;
  prepareAWSpipeline ;; prepareCDK ;; applyChanges ;;
  parseValidateGenerate ;; initOutputFolder ;; outputs ;; removePipeline.

(** [main] before the changes are applied. *)
Definition beforeChanges (argv : list string) : M unit :=
  when (length argv <=? 2)%nat (exit 0) ;;
  processArgs argv ;;
  getGraphDBSchemaFromFile ;;
  checkNeptuneAnalytics ;;
  getNeptuneSchemaFromEndpoint ;;
  inferenceGraphQLSchema ;;
  loadGraphQLSchema ;;
  loadChanges ;;
  prepareAWSpipeline ;;
  prepareCDK.

(** [main] between [processArgs] and the parsing of the schema. *)
Definition loadInputs : M unit :=
  getGraphDBSchemaFromFile ;;
  checkNeptuneAnalytics ;;
  getNeptuneSchemaFromEndpoint ;;
  inferenceGraphQLSchema ;;
  loadGraphQLSchema ;;
  loadChanges ;;
  prepareAWSpipeline ;;
  prepareCDK ;;
  applyChanges.

(** [main] after the resolvers are generated. *)
Definition afterGeneration : M unit :=
  initOutputFolder ;; outputs ;; removePipeline.

(** What follows the two schema outputs in [outputs]. *)
Definition otherOutputs : M unit :=
  outputNeptuneSchema ;;
  outputLambdaResolver_ ;;
  outputJSResolver_ ;;
  selectLambdaPackage ;;
  outputLambdaZip ;;
  outputAWSpipeline ;;
  outputCDK.

(** ** What [processArgs] leaves in the variables *)

(** The effect of one argument [val] on the variables that the theorems
    below are about. *)
Definition argStep (val : string) (s s' : state) : Prop :=
  mb s' outputSchemaMutations
  = mb s outputSchemaMutations && negb (is_case val noMutationsLabels)
  /\ mb s' isNeptuneIAMAuth = mb s isNeptuneIAMAuth || is_case val iamLabels
  /\ ms s' neptuneType = ms s neptuneType
  /\ (is_case val clientSchemaLabels = false ->
      ms s' outputSchemaFile = ms s outputSchemaFile)
  /\ (is_case val sourceSchemaLabels = false ->
      ms s' outputSourceSchemaFile = ms s outputSourceSchemaFile).

(** The same for a list of arguments. *)
Definition argsRead (argv : list string) (s s' : state) : Prop :=
  mb s' outputSchemaMutations
  = mb s outputSchemaMutations && negb (hasOption noMutationsLabels argv)
  /\ mb s' isNeptuneIAMAuth
     = mb s isNeptuneIAMAuth || hasOption iamLabels argv
  /\ ms s' neptuneType = ms s neptuneType
  /\ (hasOption clientSchemaLabels argv = false ->
      ms s' outputSchemaFile = ms s outputSchemaFile)
  /\ (hasOption sourceSchemaLabels argv = false ->
      ms s' outputSourceSchemaFile = ms s outputSourceSchemaFile).

(** ** The mutations flag *)




(** ** The neptune type *)

(** The domain that [parseNeptuneDomainFromEndpoint] returns for an
    endpoint of main.js; [None] when it throws. *)
Definition domainOf (endpoint : jsval) : option string :=
  match endpoint with
  | JString e =>
      match Util.parseNeptuneDomainFromEndpoint e with
      | Util.Ok domain => Some domain
      | Util.Error _ => None
      end
  | _ => None
  end.

(** [neptuneType] is [T] and [isNeptuneIAMAuth] is [B]. *)
Definition fixed (T : jsval) (B : bool) (s : state) : Prop :=
  ms s neptuneType = T /\ mb s isNeptuneIAMAuth = B.

Definition pipelineFixed (T : jsval) (B : bool) (s : state) : Prop :=
  fixed T B s /\ ps s PipeVar.NEPTUNE_TYPE = T
  /\ pb s PipeVar.NEPTUNE_IAM_AUTH = B.

(** The event uses the neptune type [T] and the IAM setting [B]: the
    parameters of the schema introspection, the arguments of the AWS
    pipeline and of the CDK pipeline, and the environment of the Lambda
    function. *)
Definition uses (T : jsval) (B : bool) (e : event Model) : Prop :=
  match e with
  | Call (Call_setGetNeptuneSchemaParameters _ _ _ _ type) => type = T
  | Call (Call_createUpdateAWSpipeline a) =>
      World.neptuneType a = T /\ World.isNeptuneIAMAuth a = B
  | Call (Call_createAWSpipelineCDK a) =>
      cdk_neptuneType a = T /\ cdk_isNeptuneIAMAuth a = B
  | Lib (Send _ (LambdaCreateFunctionCommand params)) =>
      env_NEPTUNE_TYPE params = T
      /\ env_NEPTUNE_IAM_AUTH_ENABLED params = bool_to_string B
  | _ => True
  end.

(** From [s] on, the run that ends as [o] has [neptuneType] at [T] and
    [isNeptuneIAMAuth] at [B], in its variables and in what it does. *)
Definition runsWith (T : jsval) (B : bool) (s : state) (o : outcome unit)
  : Prop :=
  fixed T B (final o) /\ extends (uses T B) s (final o).

(** The state after the two assignments of [checkNeptuneAnalytics]. *)
Definition analytics (s : state) : state :=
  final ((set_ms neptuneType (JString NEPTUNE_GRAPH) ;;
          set_mb isNeptuneIAMAuth true) s).

(** ** The execution client and the Lambda package *)

Definition clients : list jsval :=
  [JString "sdk"; JString "http"; JString "client"].

(** [folder] is the template folder for the client [C] and the neptune
    type [T]. *)
Definition packageFor (C T : jsval) (folder : string) : Prop :=
  (C = JString "http" ->
   folder = __dirname +:+ "/../templates/Lambda4AppSyncHTTP")
  /\ (C = JString "sdk" -> T = JString NEPTUNE_DB ->
      folder = __dirname +:+ "/../templates/Lambda4AppSyncSDK")
  /\ (C = JString "sdk" -> T = JString NEPTUNE_GRAPH ->
      folder = __dirname +:+ "/../templates/Lambda4AppSyncGraphSDK").

(** The event uses the client [C]: the resolver generator receives [C],
    and the Lambda package, the AWS pipeline and the CDK pipeline take the
    template folder selected for [C] and [T]. *)
Definition clientSelects (C T : jsval) (e : event Model) : Prop :=
  match e with
  | Call (Call_resolverJS _ _ client _) => client = C
  | Call (Call_createLambdaDeploymentPackage folder _) => packageFor C T folder
  | Call (Call_createUpdateAWSpipeline a) => packageFor C T (lambdaFilesPath a)
  | Call (Call_createAWSpipelineCDK a) => packageFor C T (cdk_lambdaFilesPath a)
  | _ => True
  end.

(** No call that depends on the client is made. *)
Definition beforeClient (e : event Model) : Prop :=
  match e with
  | Call (Call_resolverJS _ _ _ _)
  | Call (Call_createLambdaDeploymentPackage _ _)
  | Call (Call_createUpdateAWSpipeline _)
  | Call (Call_createAWSpipelineCDK _) => False
  | _ => True
  end.

Definition validClient (s : state) : Prop :=
  In (ms s queryClient) clients
  /\ (ms s neptuneType = JString NEPTUNE_DB
      \/ ms s neptuneType = JString NEPTUNE_GRAPH).

Definition clientIs (C T : jsval) (s : state) : Prop :=
  ms s queryClient = C /\ ms s neptuneType = T.

Definition packageSelected (C T : jsval) (s : state) : Prop :=
  clientIs C T s /\ packageFor C T (lambdaPackageFolder s).

(** The clients that the resolver generator is called with are all among
    [allowed]. *)
Definition resolverClientsIn (allowed : list jsval)
    (tr : list (event Model)) : bool :=
  forallb (fun e =>
             match e with
             | Call (Call_resolverJS _ _ client _) =>
                 existsb (jsval_eqb client) allowed
             | _ => true
             end)
          tr.

(** ** The resolver generator *)

Definition isResolverCall (e : event Model) : bool :=
  match e with
  | Call (Call_resolverJS _ _ _ _) => true
  | _ => false
  end.


(** The calls of the resolver generator so far. *)
Definition resolverCalls (s : state) : list (event Model) :=
  List.filter isResolverCall (trace s).



(** ** The change engine, the parser and the validator *)







(** ** The two schema outputs *)

Definition isStringify (e : event Model) : bool :=
  match e with
  | Call (Call_schemaStringify _ _) => true
  | _ => false
  end.

Definition notStringify (e : event Model) : Prop := isStringify e = false.

(** The texts written to [file], in the order of the writes. *)
Definition writtenTo (file : jsval) (tr : list (event Model)) : list jsval :=
  flat_map (fun e =>
              match e with
              | Lib (WriteFileSync path text) =>
                  if jsval_eqb path file then [text] else []
              | _ => []
              end)
           tr.

(** The variables that the schema outputs depend on are as in [s0]. *)
Definition schemaFrozen (s0 s : state) : Prop :=
  ms s inputGraphQLSchema = ms s0 inputGraphQLSchema
  /\ mb s quiet = mb s0 quiet
  /\ schemaModel s = schemaModel s0
  /\ ms s outputSchemaFile = ms s0 outputSchemaFile
  /\ ms s outputSourceSchemaFile = ms s0 outputSourceSchemaFile.

(** The names of the two schema files, and [quiet], are as in [s0]. *)
Definition filesFrozen (s0 s : state) : Prop :=
  mb s quiet = mb s0 quiet
  /\ ms s outputSchemaFile = ms s0 outputSchemaFile
  /\ ms s outputSourceSchemaFile = ms s0 outputSourceSchemaFile.

(** What a schema output does when it returns: the model is serialized
    with [directives] and the text is written to the file named by the
    variable [file], which gets its default name when it was empty. *)
Definition schemaOutput (directives : bool) (file : svar) (suffix : string)
    (s s' : state) : Prop :=
  exists text,
    schemaStringify (schemaModel s) directives = Some text
    /\ trace s' = trace s ++
         [ Call (Call_schemaStringify (schemaModel s) directives);
           Lib (WriteFileSync (ms s' file) text) ]
    /\ ms s' file = (if loose_empty (ms s file)
                     then defaultOutputFile s suffix else ms s file)
    /\ schemaModel s' = schemaModel s
    /\ mb s' = mb s.

End Spec.
End Spec.

(* ===================================================================== *)
(** * A concrete environment *)
(* ===================================================================== *)

(** An environment in which the definitions can be run: a file system with
    a schema file and a change script, an AWS account without any pipeline
    in which the creation of Lambda functions is refused, and stand-ins for
    the passes of the core. *)
Module Demo.
Import Js World Eff.

(** A schema model is the list of its definitions; [None] is [{}]. *)
Definition Model : Type := option (list definition).

Definition parsed : Model :=
  Some [ Definition_ "ObjectTypeDefinition" "Airport" ["code"; "city"];
         Definition_ "ObjectTypeDefinition" "Query" ["getAirport"];
         Definition_ "ObjectTypeDefinition" "Mutation" ["createAirport"] ].

Definition cluster : dbcluster :=
  {| Endpoint := "db.cluster-abc.us-east-1.neptune.amazonaws.com";
     Port := "8182";
     DBSubnetGroup := "default";
     VpcSecurityGroups := ["sg-1"];
     IAMDatabaseAuthenticationEnabled := false;
     EngineVersion := "1.3.0.0";
     DBClusterArn := "arn:aws:rds:us-east-1:123:cluster:db";
     DbClusterResourceId := "cluster-ABC" |}.

Definition aws (c : aws_command) : option response :=
  match c with
  | GetFunctionCommand _ | GetRoleCommand _ => None
  | ListGraphqlApisCommand _ => Some (RespGraphqlApis [])
  | DescribeDBClustersCommand _ => Some (RespDBClusters [cluster])
  | DescribeDBSubnetGroupsCommand _ => Some (RespDBSubnetGroups [["subnet-1"]])
  | CreateRoleCommand roleName _ => Some (RespRole ("arn:role/" +:+ roleName))
  | CreatePolicyCommand policyName _ _ =>
      Some (RespPolicy ("arn:policy/" +:+ policyName))
  | LambdaCreateFunctionCommand _ => None
  | CreateGraphqlApiCommand _ => Some (RespGraphqlApi "api-1")
  | CreateApiKeyCommand _ => Some (RespApiKey "key-1")
  | AppSyncCreateFunctionCommand _ _ _ =>
      Some (RespFunctionConfiguration "function-1")
  | ListResolversCommand _ _ => Some (RespResolvers [])
  | _ => Some RespEmpty
  end.

Definition files (path : jsval) : option response :=
  match path with
  | JString "schema.graphql" => Some (RespText "type Airport { code: String }")
  | JString "changes.json" => Some (RespText "[{ type: Airport }]")
  | _ => None
  end.

(** The same account, but the creation of Lambda functions is granted. *)
Definition awsGranting (c : aws_command) : option response :=
  match c with
  | LambdaCreateFunctionCommand params =>
      Some (RespLambda ("arn:lambda/" +:+ FunctionName params))
  | _ => aws c
  end.

Definition environment (account : aws_command -> option response)
  : Collaborators unit Model :=
  {| __dirname := "/opt/utility/src";
     emptyObject := None;
     definitions := fun model => model;
     graphDBInferenceSchema := fun schema addMutations =>
       Some (JString (if addMutations then "type Query type Mutation"
                      else "type Query"));
     changeGraphQLSchema := fun schema changes =>
       Some (JString (to_str schema +:+ " # changed"));
     schemaParser := fun schema => Some parsed;
     validatedSchemaModel := fun model quiet => Some model;
     resolverJS := fun model queryLanguage queryClient dirname =>
       Some (JString ("// resolver " +:+ to_str queryLanguage +:+ " "
                      +:+ to_str queryClient));
     schemaStringify := fun model directives =>
       Some (JString (if directives then "type Airport @alias"
                      else "type Airport"));
     JSON_parse := fun text => Some ∅;
     library := fun c w =>
       match c with
       | Send _ c => (account c, w)
       | ReadFileSync path => (files path, w)
       | ZipFolder _ _ _ => (Some (RespText "PK"), w)
       | _ => (Some RespEmpty, w)
       end;
     collaborator := fun c w => (Returned (JString "{}"), w) |}.

#[global] Instance env : Collaborators unit Model := environment aws.

Definition granting : Collaborators unit Model := environment awsGranting.

Definition start : @state unit Model := initial tt.

(** Arguments for a new pipeline on a neptune-db cluster. *)
Definition newPipeline : pipeline_args Model :=
  {| pipelineName := JString "demo";
     neptuneDBName := JString "db";
     neptuneDBregion := JString "us-east-1";
     appSyncSchema := JString "type Airport";
     World.schemaModel := parsed;
     lambdaFilesPath := "/opt/utility/src/../templates/Lambda4AppSyncHTTP";
     addMutations := true;
     quietI := true;
     dirname := "/opt/utility/src";
     isNeptuneIAMAuth := false;
     neptuneHost := JString "db.cluster-abc.us-east-1.neptune.amazonaws.com";
     neptunePort := JString "8182";
     outputFolderPath := JString "./output";
     neptuneType := JString "neptune-db" |}.

(** Command lines of the utility. *)
Definition schemaOnly : list string :=
  ["node"; "main.js"; "-isf"; "schema.graphql"].


Definition clientOption : list string :=
  ["node"; "main.js"; "-isf"; "schema.graphql"; "-orc"].

Definition sameSchemaFile : list string :=
  ["node"; "main.js"; "-isf"; "schema.graphql";
   "-os"; "out.graphql"; "-oss"; "out.graphql"].

Definition analyticsCDK : list string :=
  ["node"; "main.js"; "-isf"; "schema.graphql"; "-c";
   "-ce"; "g-abcdef.us-west-2.neptune-graph.amazonaws.com:8182";
   "-cn"; "demo"].

End Demo.

(* ===================================================================== *)
(** * Further specifications *)
(* ===================================================================== *)

(** ** util.js *)

Module UtilSpec.
Import Js.

(** The part [p] contains no separator [sep]. *)
Definition free_of (sep : ascii) (p : string) : Prop :=
  includes (String sep "") p = false.

End UtilSpec.

(** ** pipelineResources.js *)

Module PipelineSpec.
Import Js World Eff Pipeline.
Import PipeVar.
Local Open Scope list_scope.

(** The two policies that AWS manages. *)
Definition basicExecutionRole : string :=
  "arn:aws:iam::aws:policy/service-role/AWSLambdaBasicExecutionRole".
Definition vpcAccessRole : string :=
  "arn:aws:iam::aws:policy/service-role/AWSLambdaVPCAccessExecutionRole".

Section PipelineSpec.
Context {World Model : Type} `{!Collaborators World Model}.

Local Abbreviation M := (@Eff.M World Model).
Local Abbreviation state := (@Eff.state World Model).

(** The computation does not end by an exception. *)
Definition neverThrows {A} (o : @outcome World Model A) : Prop :=
  match o with
  | Throw _ => False
  | _ => True
  end.

(** When the computation ends the process, the exit code is [code]. *)
Definition exitsOnlyWith (code : Z) {A} (o : @outcome World Model A) : Prop :=
  match o with
  | Exit c _ => c = code
  | _ => True
  end.

(** The three lookups of [checkPipeline], in order. *)
Definition pipelineLookups (s : state) : list (event Model) :=
  map (fun c => Lib (Send (ps s REGION) c))
    [ GetFunctionCommand (to_str (ps s NAME) +:+ "LambdaFunction");
      ListGraphqlApisCommand "GRAPHQL";
      GetRoleCommand (to_str (ps s NAME) +:+ "LambdaExecutionRole") ].

(** What [createUpdateAWSpipeline] does to a pipeline that exists: it
    reads the resources file, builds the package, and sends the new code,
    the new schema and the resolvers that are missing. *)
Definition updateEvent (e : event Model) : Prop :=
  match e with
  | Lib (ReadFileSync _)
  | Lib (ZipFolder _ _ _)
  | Lib (Send _ (UpdateFunctionCodeCommand _ _))
  | Lib (Send _ (StartSchemaCreationCommand _ _))
  | Lib (Send _ (ListResolversCommand _ _))
  | Lib (Send _ (CreateResolverCommand _ _ _ _)) => True
  | _ => False
  end.

(** [NEPTUNE_HOST] is not a string, or has fewer than five parts. *)
Definition shortHost (s : state) : Prop :=
  match ps s NEPTUNE_HOST with
  | JString host => length (split "." host) < 5
  | _ => True
  end.

(** The fields of the object types called [typeName] in [SCHEMA_MODEL]. *)
Definition schemaFields (s : state) (typeName : string) : list string :=
  match SCHEMA_MODEL s with
  | Some model =>
      match definitions model with
      | Some defs =>
          flat_map
            (fun def =>
               if String.eqb (kind def) "ObjectTypeDefinition"
                  && String.eqb (name def) typeName
               then fields def else [])
            defs
      | None => []
      end
  | None => []
  end.

(** [typeName] is a type that [attachResolvers] looks at in state [s]. *)
Definition resolvedType (s : state) (typeName : string) : Prop :=
  typeName = "Query"
  \/ (typeName = "Mutation" /\ pb s ADD_MUTATIONS = true).

(** An event of [attachResolvers client apiId functionId] run from [s]. *)
Definition attaches (s : state) (client apiId functionId : jsval)
    (e : event Model) : Prop :=
  match e with
  | Lib (Send region (ListResolversCommand api typeName)) =>
      region = client /\ api = apiId /\ resolvedType s typeName
  | Lib (Send region (CreateResolverCommand api typeName fieldName function)) =>
      region = client /\ api = apiId /\ function = functionId
      /\ resolvedType s typeName
      /\ In fieldName (schemaFields s typeName)
  | _ => False
  end.

(** No resolver is created for a field of [typeName] that is in
    [existing]. *)
Definition skips (typeName : string) (existing : list string)
    (e : event Model) : Prop :=
  match e with
  | Lib (Send _ (CreateResolverCommand _ type fieldName _)) =>
      type = typeName -> ~ In fieldName existing
  | _ => True
  end.

(** The Neptune version in [s] is one that predates the SDK query. *)
Definition versionWithoutSDK (s : state) : bool :=
  existsb (fun v => jsval_eqb (ps s NEPTUNE_CURRENT_VERSION) (JString v))
          versions_without_SDK.

End PipelineSpec.
End PipelineSpec.

(** ** main.js *)

Module MainSpec.
Import Js World Eff Main Spec.
Import MainVar.
Local Open Scope list_scope.
Local Open Scope eff_scope.

Definition helpLabels : list string :=
  ["--help"; "--h"; "-help"; "-h"; "--version"; "--v"; "-version"; "-v"].
Definition pipelineLabels : list string :=
  ["-p"; "--create-update-aws-pipeline"].
Definition cdkLabels : list string := ["-c"; "--output-aws-pipeline-cdk"].
Definition noZipLabels : list string := ["-onl"; "--output-no-lambda-zip"].
Definition removeLabels : list string :=
  ["-rp"; "--remove-aws-pipeline-name"].


Section MainSpec.
Context {World Model : Type} `{!Collaborators World Model}.

Local Abbreviation M := (@Eff.M World Model).
Local Abbreviation state := (@Eff.state World Model).

(** [main] after [processArgs]. *)
Definition afterArguments : M unit :=
  getGraphDBSchemaFromFile ;;
  checkNeptuneAnalytics ;;
  getNeptuneSchemaFromEndpoint ;;
  inferenceGraphQLSchema ;;
  loadGraphQLSchema ;;
  loadChanges ;;
  prepareAWSpipeline ;;
  prepareCDK ;;
  applyChanges ;;
  parseValidateGenerate ;;
  initOutputFolder ;;
  outputs ;;
  removePipeline.

(** [main] up to the generation of the resolvers. *)
Definition beforeOutputs (argv : list string) : M unit :=
  (beforeChanges argv ;; applyChanges) ;; parseValidateGenerate.

(** *** What is deployed *)

(** The effect of one argument [val] on the variables that decide what is
    deployed. *)
Definition deployStep (val : string) (s s' : state) : Prop :=
  mb s' createUpdatePipeline
  = mb s createUpdatePipeline || is_case val pipelineLabels
  /\ mb s' inputCDKpipeline = mb s inputCDKpipeline || is_case val cdkLabels
  /\ mb s' createLambdaZip
     = mb s createLambdaZip && negb (is_case val noZipLabels)
  /\ (is_case val removeLabels = false ->
      ms s' removePipelineName = ms s removePipelineName).

(** The same for a list of arguments. *)
Definition deployRead (argv : list string) (s s' : state) : Prop :=
  mb s' createUpdatePipeline
  = mb s createUpdatePipeline || hasOption pipelineLabels argv
  /\ mb s' inputCDKpipeline = mb s inputCDKpipeline || hasOption cdkLabels argv
  /\ mb s' createLambdaZip
     = mb s createLambdaZip && negb (hasOption noZipLabels argv)
  /\ (hasOption removeLabels argv = false ->
      ms s' removePipelineName = ms s removePipelineName).



(** *** Endpoints *)



(** *** Files *)

(** The event writes a file, or is a call that produces one. *)
Definition isWrite (e : event Model) : bool :=
  match e with
  | Lib (WriteFileSync _ _) | Lib (WriteJSON _ _) | Lib (ZipFolder _ _ _)
  | Call (Call_createLambdaDeploymentPackage _ _)
  | Call (Call_createAWSpipelineCDK _) => true
  | _ => false
  end.

Definition notWrite (e : event Model) : Prop := isWrite e = false.

(** Every write of [tr] comes after a [mkdirSync]; [seen] tells whether
    one came before [tr]. *)
Fixpoint afterMkdir (seen : bool) (tr : list (event Model)) : bool :=
  match tr with
  | [] => true
  | Lib (MkdirSync _) :: rest => afterMkdir true rest
  | e :: rest => (seen || negb (isWrite e)) && afterMkdir seen rest
  end.

(** The event is part of what [main] generates from a schema: a call of
    the parser, the validator, the resolver generator or the serialiser, a
    file of the output folder, the Lambda package, the AWS pipeline or the
    CDK file. *)
Definition isOutput (e : event Model) : bool :=
  match e with
  | Call (Call_schemaParser _) | Call (Call_validatedSchemaModel _ _)
  | Call (Call_resolverJS _ _ _ _) | Call (Call_schemaStringify _ _)
  | Call (Call_createLambdaDeploymentPackage _ _)
  | Call (Call_createUpdateAWSpipeline _)
  | Call (Call_createAWSpipelineCDK _)
  | Lib (WriteFileSync _ _) | Lib (WriteJSON _ _) | Lib (ZipFolder _ _ _) =>
      true
  | _ => false
  end.

Definition notOutput (e : event Model) : Prop := isOutput e = false.

(** *** The schema file *)

(** The event is not a call of the inference. *)
Definition notInference (e : event Model) : Prop :=
  match e with
  | Call (Call_graphDBInferenceSchema _ _) => False
  | _ => True
  end.

(** A file for the GraphQL schema is named. *)
Definition schemaFileGiven (s : state) : Prop :=
  loose_nonempty (ms s inputGraphQLSchemaFile) = true.

(** *** The removal of a pipeline *)


(** What reading and parsing the resources file gives. *)
Inductive loaded : Type :=
| Unreadable
| Unparsed
| Resources (resources : gmap string jsval).


End MainSpec.
End MainSpec.

(** ** An account in which the pipeline [demo] exists *)

Module Deployed.
Import Js World Eff.
Local Open Scope list_scope.

(** The content of the resources file. *)
Definition resources : gmap string jsval :=
  {[ "region" := JString "us-east-1";
     "LambdaFunction" := JString "demoLambdaFunction";
     "AppSyncAPI" := JString "api-1";
     "AppSyncAPIFunction" := JString "function-1" ]}.

Definition aws (c : aws_command) : option response :=
  match c with
  | GetFunctionCommand _ => Some RespEmpty
  | ListGraphqlApisCommand _ => Some (RespGraphqlApis ["other"; "demoAPI"])
  | GetRoleCommand roleName => Some (RespRole ("arn:role/" +:+ roleName))
  | ListResolversCommand _ typeName =>
      Some (RespResolvers (if String.eqb typeName "Query"
                           then ["getAirport"] else []))
  | _ => Demo.aws c
  end.

Definition files (path : jsval) : option response :=
  match path with
  | JString "./output/demo-resources.json" => Some (RespText "{ region }")
  | _ => Demo.files path
  end.

Definition env : Collaborators unit Demo.Model :=
  let base := Demo.environment aws in
  {| __dirname := @__dirname _ _ base;
     emptyObject := @emptyObject _ _ base;
     definitions := @definitions _ _ base;
     graphDBInferenceSchema := @graphDBInferenceSchema _ _ base;
     changeGraphQLSchema := @changeGraphQLSchema _ _ base;
     schemaParser := @schemaParser _ _ base;
     validatedSchemaModel := @validatedSchemaModel _ _ base;
     resolverJS := @resolverJS _ _ base;
     schemaStringify := @schemaStringify _ _ base;
     JSON_parse := fun _ => Some resources;
     library := fun c w =>
       match c with
       | ReadFileSync path => (files path, w)
       | _ => @library _ _ base c w
       end;
     collaborator := @collaborator _ _ base |}.

Definition start : @state unit Demo.Model := @initial _ _ env tt.

(** The state in which [createUpdateAWSpipeline] has set its variables. *)
Definition prepared : @state unit Demo.Model :=
  final (Pipeline.setPipelineVariables Demo.newPipeline start).

(** The state after the check of the pipeline, and after the update. *)
Definition checked : @state unit Demo.Model :=
  final (@Pipeline.checkPipeline _ _ env prepared).

Definition updated : @state unit Demo.Model :=
  final (@Pipeline.createUpdateAWSpipeline _ _ env Demo.newPipeline start).

End Deployed.

(** ** Further runs in the account of [Demo] *)

Module Runs.
Import Js World Eff.
Local Open Scope list_scope.

(** A pipeline on a host that is not a Neptune host. *)
Definition localPipeline : pipeline_args Demo.Model :=
  {| pipelineName := JString "demo";
     neptuneDBName := JString "localhost:8182";
     neptuneDBregion := JString "us-east-1";
     appSyncSchema := JString "type Airport";
     World.schemaModel := Demo.parsed;
     lambdaFilesPath := "/opt/utility/src/../templates/Lambda4AppSyncHTTP";
     addMutations := true;
     quietI := true;
     dirname := "/opt/utility/src";
     isNeptuneIAMAuth := true;
     neptuneHost := JString "localhost";
     neptunePort := JString "8182";
     outputFolderPath := JString "./output";
     neptuneType := JString "neptune-db" |}.

(** The states in which [createUpdateAWSpipeline] has set its variables. *)
Definition prepared : @state unit Demo.Model :=
  final (Pipeline.setPipelineVariables Demo.newPipeline Demo.start).

Definition preparedLocal : @state unit Demo.Model :=
  final (Pipeline.setPipelineVariables localPipeline Demo.start).

(** Command lines of the utility. *)
Definition help : list string :=
  ["node"; "main.js"; "-isf"; "schema.graphql"; "--help"].

Definition quietOnly : list string := ["node"; "main.js"; "-q"].

Definition pipelineWithoutPort : list string :=
  ["node"; "main.js"; "-isf"; "schema.graphql"; "-p"; "-pe"; "localhost"].


End Runs.

(* ===================================================================== *)
(** * util.js: the domain of an endpoint *)
(* ===================================================================== *)

Module UtilProofs.
Import Js Util.

Example domain_of_graph_endpoint :
  parseNeptuneDomainFromEndpoint
    "g-abcdef.us-west-2.neptune-graph.amazonaws.com:8182"
  = Ok "neptune-graph.amazonaws.com".
Proof. reflexivity. Qed.

Example domain_of_db_host :
  parseNeptuneDomainFromHost
    "db-neptune-abc-def.cluster-xyz.us-west-2.neptune.amazonaws.com"
  = Ok "neptune.amazonaws.com".
Proof. reflexivity. Qed.

Example graph_name_of_host :
  parseNeptuneGraphName "g-abcdef.us-west-2.neptune-graph.amazonaws.com"
  = Ok (JString "g-abcdef").
Proof. reflexivity. Qed.

Example endpoint_without_port :
  throws (parseNeptuneDomainFromEndpoint
            "g-abcdef.us-west-2.neptune-graph.amazonaws.com") = true.
Proof. reflexivity. Qed.

Example endpoint_with_short_host :
  parseNeptuneDomainFromEndpoint "a.b.c.d:8182"
  = Error "Cannot parse neptune host a.b.c.d because it has 4 part(s) delimited by . but expected at least 5".
Proof. reflexivity. Qed.

Lemma split_not_nil (sep : ascii) (s : string) : split sep s <> [].
Proof.
  destruct s as [|c s]; simpl; [discriminate|].
  destruct (Ascii.eqb c sep); [discriminate|].
  destruct (split sep s); discriminate.
Qed.

(** C9. [parseNeptuneDomainFromEndpoint e] throws unless [e] splits on ':'
    into exactly two parts and its host part (the first part) has at least
    five '.'-separated parts; when it returns, the result is that of
    [parseNeptuneDomainFromHost] on the host part, namely the last three
    '.'-separated parts of the host joined by '.'. *)
Theorem parseNeptuneDomainFromEndpoint_spec (e : string) :
  let parts := split ":" e in
  let host := List.nth 0 parts "" in
  let hostParts := split "." host in
  if Nat.eqb (length parts) 2 && Nat.leb 5 (length hostParts) then
    parseNeptuneDomainFromEndpoint e = parseNeptuneDomainFromHost host
    /\ parseNeptuneDomainFromEndpoint e = Ok (join "." (last3 hostParts))
  else throws (parseNeptuneDomainFromEndpoint e) = true.
Proof.
  intros parts host hostParts.
  unfold parseNeptuneDomainFromEndpoint.
  change (split ENDPOINT_DELIMITER e) with parts.
  subst host hostParts. clearbody parts.
  destruct parts as [|host rest]; [reflexivity|]. cbn [List.nth].
  destruct (Nat.eqb_spec (length (host :: rest)) 2) as [E2|E2]; cbn [andb].
  - destruct (decide (length (host :: rest) ≠ 2)) as [?|_]; [done|].
    unfold parseNeptuneDomainFromHost, splitHost.
    change (split HOST_DELIMITER host) with (split "." host).
    unfold MIN_HOST_PARTS, NUM_DOMAIN_PARTS.
    destruct (Nat.leb_spec 5 (length (split "." host))) as [E5|E5].
    + destruct (decide (length (split "." host) < 5)) as [?|_]; [lia|].
      split; [reflexivity|]. unfold splice_removed, last3.
      rewrite take_ge; [reflexivity|]. rewrite length_drop. lia.
    + destruct (decide (length (split "." host) < 5)) as [_|?];
        [reflexivity|lia].
  - destruct (decide (length (host :: rest) ≠ 2)) as [_|?]; [reflexivity|done].
Qed.

End UtilProofs.

(* ===================================================================== *)
(** * Reasoning about computations *)
(* ===================================================================== *)

Module Rules.
Import Js World Eff Spec.
Local Open Scope list_scope.

Section Rules.
Context {World Model : Type} `{!Collaborators World Model}.

Local Abbreviation M := (@Eff.M World Model).
Local Abbreviation state := (@Eff.state World Model).

Lemma bind_assoc {A B C} (m : M A) (k : A -> M B) (k' : B -> M C) s :
  bind (bind m k) k' s = bind m (fun a => bind (k a) k') s.
Proof. unfold bind. by destruct (m s). Qed.

Lemma bind_Ret {A B} (m : M A) (k : A -> M B) s a s1 :
  m s = Ret a s1 -> bind m k s = k a s1.
Proof. unfold bind. by intros ->. Qed.

Lemma bind_Ret_inv {A B} (m : M A) (k : A -> M B) s b s2 :
  bind m k s = Ret b s2 -> exists a s1, m s = Ret a s1 /\ k a s1 = Ret b s2.
Proof. unfold bind. destruct (m s) as [a s1|s1|c s1]; [eauto|done..]. Qed.

Lemma final_bind {A B} (m : M A) (k : A -> M B) s :
  final (bind m k s) =
  match m s with
  | Ret a s1 => final (k a s1)
  | Throw s1 | Exit _ s1 => s1
  end.
Proof. unfold bind. by destruct (m s). Qed.

Section Keeps.
Variable I : state -> Prop.
Variable P : event Model -> Prop.

Lemma extends_refl (s : state) : extends P s s.
Proof. exists []. split; [by rewrite app_nil_r | constructor]. Qed.

Lemma extends_trans (s1 s2 s3 : state) :
  extends P s1 s2 -> extends P s2 s3 -> extends P s1 s3.
Proof.
  intros (l1 & E1 & F1) (l2 & E2 & F2). exists (l1 ++ l2). split.
  - by rewrite E2, E1, app_assoc.
  - by apply Forall_app.
Qed.

Lemma extends_record e w (s : state) : P e -> extends P s (record e w s).
Proof. intros He. exists [e]. split; [reflexivity | by constructor]. Qed.

Lemma keeps_at_ret {A} (a : A) s : keeps_at I P (ret a) s.
Proof. intros HI. split; [done | apply extends_refl]. Qed.

Lemma keeps_at_throw {A} s : keeps_at I P (@throw _ _ A) s.
Proof. intros HI. split; [done | apply extends_refl]. Qed.

Lemma keeps_at_exit {A} c s : keeps_at I P (@exit _ _ A c) s.
Proof. intros HI. split; [done | apply extends_refl]. Qed.

Lemma keeps_at_bind {A B} (m : M A) (k : A -> M B) s :
  keeps_at I P m s ->
  (forall a s', keeps_at I P (k a) s') ->
  keeps_at I P (bind m k) s.
Proof.
  intros Hm Hk HI. destruct (Hm HI) as [HI1 E1]. unfold bind.
  destruct (m s) as [a s1|s1|c s1]; cbn in *; [|done..].
  destruct (Hk a s1 HI1) as [HI2 E2]. split; [done|]. by eapply extends_trans.
Qed.

Lemma keeps_at_get {A} (k : state -> M A) s :
  (I s -> keeps_at I P (k s) s) -> keeps_at I P (bind get k) s.
Proof. intros H HI. by apply H. Qed.

Lemma keeps_at_try {A} (m h : M A) s :
  keeps_at I P m s ->
  (forall s', keeps_at I P h s') ->
  keeps_at I P (try_catch m h) s.
Proof.
  intros Hm Hh HI. destruct (Hm HI) as [HI1 E1]. unfold try_catch.
  destruct (m s) as [a s1|s1|c s1]; cbn in *; [done| |done].
  destruct (Hh s1 HI1) as [HI2 E2]. split; [done|]. by eapply extends_trans.
Qed.

Lemma keeps_at_for_of {A} (l : list A) (body : A -> M unit) s :
  (forall x s', keeps_at I P (body x) s') -> keeps_at I P (for_of l body) s.
Proof.
  intros Hb. revert s. induction l as [|x l IH]; intros s; cbn [for_of].
  - apply keeps_at_ret.
  - apply keeps_at_bind; [apply Hb | intros _ s'; apply IH].
Qed.

Lemma keeps_at_forEach_from {A} (l : list A) i (body : A -> nat -> M unit) s :
  (forall x j s', keeps_at I P (body x j) s') ->
  keeps_at I P (forEach_from i l body) s.
Proof.
  intros Hb. revert i s.
  induction l as [|x l IH]; intros i s; cbn [forEach_from].
  - apply keeps_at_ret.
  - apply keeps_at_bind; [apply Hb | intros _ s'; apply IH].
Qed.

(** An assignment: the trace is left alone. *)
Lemma keeps_at_silent (f : state -> state) s :
  trace (f s) = trace s -> (I s -> I (f s)) ->
  keeps_at I P (fun s => Ret tt (f s)) s.
Proof.
  intros Ht Hf HI. split; [by apply Hf|]. exists []. cbn.
  split; [by rewrite Ht, app_nil_r | constructor].
Qed.

Lemma keeps_at_perform c s :
  P (Lib c) -> (forall w, I s -> I (record (Lib c) w s)) ->
  keeps_at I P (perform c) s.
Proof.
  intros HP Hr HI. unfold perform.
  destruct (library c (world s)) as [[r|] w]; cbn;
    (split; [by apply Hr | by apply extends_record]).
Qed.

Lemma keeps_at_call_pass {A} c (r : option A) s :
  P (Call c) -> (forall w, I s -> I (record (Call c) w s)) ->
  keeps_at I P (call_pass c r) s.
Proof.
  intros HP Hr HI. unfold call_pass.
  destruct r; cbn; (split; [by apply Hr | by apply extends_record]).
Qed.

Lemma keeps_at_call_out c s :
  P (Call c) -> (forall w, I s -> I (record (Call c) w s)) ->
  keeps_at I P (call_out c) s.
Proof.
  intros HP Hr HI. unfold call_out.
  destruct (collaborator c (world s)) as [[r| |code] w]; cbn;
    (split; [by apply Hr | by apply extends_record]).
Qed.

Lemma keeps_at_enter c s :
  P (Call c) -> (forall w, I s -> I (record (Call c) w s)) ->
  keeps_at I P (enter c) s.
Proof.
  intros HP Hr HI. unfold enter. cbn.
  split; [by apply Hr | by apply extends_record].
Qed.

(** From [m] on, a stronger invariant [I'] holds. *)
Lemma keeps_at_bind_change (I' : state -> Prop) {A B}
    (m : M A) (k : A -> M B) s :
  (forall s', I' s' -> I s') ->
  (I s -> I' (final (m s)) /\ extends P s (final (m s))) ->
  (forall a s', keeps_at I' P (k a) s') ->
  keeps_at I P (bind m k) s.
Proof.
  intros Hw Hm Hk HI. destruct (Hm HI) as [HI1 E1]. unfold bind.
  destruct (m s) as [a s1|s1|c s1]; cbn in *; [|by auto..].
  destruct (Hk a s1 HI1) as [HI2 E2]. split; [by auto|].
  by eapply extends_trans.
Qed.

End Keeps.

Lemma keeps_at_weaken (I : state -> Prop) (P Q : event Model -> Prop)
    {A} (m : M A) s :
  (forall e, P e -> Q e) -> keeps_at I P m s -> keeps_at I Q m s.
Proof.
  intros HPQ H HI. destruct (H HI) as [HI' (l & E & F)].
  split; [done|]. exists l. split; [done|]. eapply Forall_impl; eauto.
Qed.

Lemma bind_ext {A B} (m : M A) (k k' : A -> M B) s :
  (forall a s', k a s' = k' a s') -> bind m k s = bind m k' s.
Proof. intros H. unfold bind. by destruct (m s). Qed.

(** Reasoning on a computation in two phases: [S] holds at the end when
    it holds wherever the first phase can end, and at the end of the
    second phase wherever that can start. *)
Lemma final_two_phases (I : state -> Prop) (P : event Model -> Prop)
    (S : state -> Prop) {A B} (m : M A) (k : A -> M B) s :
  keeps_at I P m s -> I s ->
  (forall s', I s' -> extends P s s' -> S s') ->
  (forall a s', I s' -> extends P s s' -> S (final (k a s'))) ->
  S (final (bind m k s)).
Proof.
  intros Hm HI Hab Hk. destruct (Hm HI) as [HI' HE]. rewrite final_bind.
  destruct (m s) as [a s1|s1|c s1]; cbn in *; auto.
Qed.

Lemma extends_Forall (P : event Model -> Prop) (s s' : state) :
  Forall P (trace s) -> extends P s s' -> Forall P (trace s').
Proof. intros F (l & E & F'). rewrite E. by apply Forall_app. Qed.



(** A computation that adds no event leaves the trace as it is. *)
Lemma extends_False (s s' : state) :
  extends (fun _ => False) s s' -> trace s' = trace s.
Proof.
  intros (l & E & F). destruct l as [|e l].
  - by rewrite E, app_nil_r.
  - by inversion F.
Qed.

End Rules.

(** Lookups in a store after assignments to variables that are known. *)
Ltac fn_simpl :=
  repeat match goal with
         | |- context [<[?x := ?v]> ?f ?y] =>
             first [ change (<[x := v]> f y) with v
                   | change (<[x := v]> f y) with (f y) ]
         end.

(** One step of a proof of [keeps]: the rule for the head of the
    computation, with [side] for the conditions on the invariant and on
    the events. *)
Ltac head_of t :=
  lazymatch t with
  | ?f _ => head_of f
  | _ => t
  end.

Ltac keeps_prim side :=
  lazymatch goal with
  | |- keeps_at _ _ (ret _) _ => apply keeps_at_ret
  | |- keeps_at _ _ throw _ => apply keeps_at_throw
  | |- keeps_at _ _ (exit _) _ => apply keeps_at_exit
  | |- keeps_at _ _ (set_ms _ _) _ =>
      unfold set_ms; apply keeps_at_silent; [reflexivity | side]
  | |- keeps_at _ _ (set_mb _ _) _ =>
      unfold set_mb; apply keeps_at_silent; [reflexivity | side]
  | |- keeps_at _ _ (set_ps _ _) _ =>
      unfold set_ps; apply keeps_at_silent; [reflexivity | side]
  | |- keeps_at _ _ (set_pb _ _) _ =>
      unfold set_pb; apply keeps_at_silent; [reflexivity | side]
  | |- keeps_at _ _ (set_schemaModel _) _ =>
      unfold set_schemaModel; apply keeps_at_silent; [reflexivity | side]
  | |- keeps_at _ _ (set_NEPTUNE_DBSubnetIds _) _ =>
      unfold set_NEPTUNE_DBSubnetIds; apply keeps_at_silent;
      [reflexivity | side]
  | |- keeps_at _ _ (set_SCHEMA_MODEL _) _ =>
      unfold set_SCHEMA_MODEL; apply keeps_at_silent; [reflexivity | side]
  | |- keeps_at _ _ (set_RESOURCES _) _ =>
      unfold set_RESOURCES; apply keeps_at_silent; [reflexivity | side]
  | |- keeps_at _ _ (perform _) _ =>
      apply keeps_at_perform; [side | intros ? ?; side]
  | |- keeps_at _ _ (call_pass _ _) _ =>
      apply keeps_at_call_pass; [side | intros ? ?; side]
  | |- keeps_at _ _ (call_out _) _ =>
      apply keeps_at_call_out; [side | intros ? ?; side]
  | |- keeps_at _ _ (enter _) _ =>
      apply keeps_at_enter; [side | intros ? ?; side]
  end.

Ltac keeps_step side :=
  cbv beta zeta;
  lazymatch goal with
  | |- keeps _ _ _ => intros ?
  | |- keeps_at _ _ (bind get _) _ => apply keeps_at_get; intros ?
  | |- keeps_at _ _ (bind _ _) _ => apply keeps_at_bind; [ | intros ? ? ]
  | |- keeps_at _ _ (try_catch _ _) _ => apply keeps_at_try; [ | intros ? ]
  | |- keeps_at _ _ (for_of _ _) _ => apply keeps_at_for_of; intros ? ?
  | |- keeps_at _ _ (forEach_from _ _ _) _ =>
      apply keeps_at_forEach_from; intros ? ? ?
  | |- keeps_at _ _ (when ?b _) _ =>
      destruct b eqn:?; [ unfold when | apply keeps_at_ret ]
  | |- keeps_at _ _ (match ?x with _ => _ end) _ => destruct x eqn:?
  | |- keeps_at _ _ ?m _ =>
      first [ keeps_prim side
            | let h := head_of m in unfold h ]
  end.

End Rules.

(* ===================================================================== *)
(** * pipelineResources.js: the pipeline check and the rollback *)
(* ===================================================================== *)

Module PipelineProofs.
Import Js World Eff Spec Rules Pipeline.
Import PipeVar.
Local Open Scope list_scope.
Local Open Scope eff_scope.

Section PipelineProofs.
Context {World Model : Type} `{!Collaborators World Model}.

Local Abbreviation M := (@Eff.M World Model).
Local Abbreviation state := (@Eff.state World Model).


Lemma lastStored_snoc (tr : list (event Model)) e :
  lastStored (tr ++ [e]) =
  match stored e with
  | Some object => Some object
  | None => lastStored tr
  end.
Proof.
  induction tr as [|x tr IH]; cbn.
  - by destruct (stored e).
  - rewrite IH. by destruct (stored e).
Qed.

(** One [try { send } catch { }] step: the command is attempted and the
    function goes on. *)
Lemma try_send_after region c (s : state) :
  try_send region c s = Ret tt (after (Send region c) s).
Proof.
  unfold try_send, send, try_catch, bind, perform, after.
  by destruct (library (Send region c) (world s)) as [[r|] w].
Qed.

Lemma trace_after c (s : state) : trace (after c s) = trace s ++ [Lib c].
Proof. reflexivity. Qed.

(** [removeAWSpipelineResources] always returns, having attempted exactly
    the commands of [removalCommands]. *)
Lemma removeAWSpipelineResources_trace resources quietI (s : state) :
  exists s',
    removeAWSpipelineResources resources quietI s = Ret tt s'
    /\ trace s' = trace s ++ map Lib (removalCommands resources).
Proof.
  unfold removeAWSpipelineResources, removalCommands.
  unfold bind at 1. cbn [set_pb].
  repeat (erewrite bind_Ret; [|apply try_send_after]).
  destruct (prop resources "NeptuneQueryPolicy") eqn:E; cbn [when].
  1,2: erewrite bind_Ret; [|reflexivity].
  3: erewrite bind_Ret; [|apply try_send_after].
  all: repeat (erewrite bind_Ret; [|apply try_send_after]).
  all: rewrite try_send_after; eexists; split; [reflexivity|].
  all: rewrite !trace_after; cbn; rewrite <- !app_assoc; reflexivity.
Qed.

Lemma storeResource_recorded resource (s : state) :
  recorded (final (storeResource resource s)).
Proof.
  unfold storeResource, bind, get, set_RESOURCES, perform. cbn.
  match goal with |- context [library ?c ?w] =>
    destruct (library c w) as [[r|] w'] end; cbn;
    unfold recorded; cbn; by rewrite lastStored_snoc.
Qed.

Lemma storeResource_keeps resource (s : state) :
  keeps_at recorded (fun _ => True) (storeResource resource) s.
Proof.
  intros _. split; [apply storeResource_recorded|].
  unfold storeResource, bind, get, set_RESOURCES, perform. cbn.
  match goal with |- context [library ?c ?w] =>
    destruct (library c w) as [[r|] w'] end; cbn;
  eexists [_]; split; cbn; try reflexivity; by repeat constructor.
Qed.

Ltac side_recorded :=
  cbn in *; unfold recorded in *; cbn in *;
  rewrite ?lastStored_snoc; cbn; intuition (try congruence; eauto).

Ltac keeps_step_recorded :=
  cbv beta zeta;
  lazymatch goal with
  | |- keeps_at _ _ (storeResource _) _ => apply storeResource_keeps
  | _ => keeps_step side_recorded
  end.

(** However the creation of the resources ends, [RESOURCES] is what was
    last written to the resources file. *)
Lemma createResources_recorded a (s : state) :
  recorded (final (createResources a s)).
Proof.
  unfold createResources.
  change (bind get ?k s) with (k s s). cbv beta.
  unfold bind at 1.
  pose proof (storeResource_recorded {[ "region" := ps s REGION ]} s) as H0.
  destruct (storeResource _ s) as [[] s1|s1|c s1]; cbn in H0; [|done..].
  match goal with |- recorded (final (?m s1)) =>
    assert (K : keeps_at recorded (fun _ => True) m s1) end.
  { repeat keeps_step_recorded. }
  by apply K.
Qed.

(** C7. When the pipeline does not exist yet and the creation of its
    resources throws part-way, in state [s2], [createUpdateAWSpipeline]
    calls [removeAWSpipelineResources] on [RESOURCES] as it is then, which
    is the object last written to the resources file, and returns: what
    follows the failure in the trace is the removal commands for that
    object and nothing else, so no step of the creation is tried again. *)
Theorem rollback_on_failure (a : pipeline_args Model) (s s1 s2 : state) :
  (setPipelineVariables a ;; checkPipeline) s = Ret tt s1 ->
  pb s1 pipelineExists = false ->
  createResources a s1 = Throw s2 ->
  exists s3,
    createUpdateAWSpipeline a s = Ret tt s3
    /\ removeAWSpipelineResources (RESOURCES s2) (pb s2 quiet) s2 = Ret tt s3
    /\ lastStored (trace s2) = Some (RESOURCES s2)
    /\ trace s3 = trace s2 ++ map Lib (removalCommands (RESOURCES s2)).
Proof.
  intros H1 Hex H2.
  destruct (removeAWSpipelineResources_trace (RESOURCES s2) (pb s2 quiet) s2)
    as (s3 & Hr & Ht).
  exists s3. split; [|split; [done|split; [|done]]].
  - unfold createUpdateAWSpipeline.
    rewrite <- bind_assoc. erewrite bind_Ret; [|exact H1].
    change (bind get ?k s1) with (k s1 s1). cbv beta.
    rewrite Hex. cbn [negb]. unfold try_catch. rewrite H2.
    change (bind get ?k s2) with (k s2 s2). cbv beta. exact Hr.
  - pose proof (createResources_recorded a s1) as Hrec.
    by rewrite H2 in Hrec.
Qed.

End PipelineProofs.


(** In the concrete environment the creation of the Lambda function is
    refused, after the execution role and its two policies were recorded. *)
Lemma rollback_on_failure_witness :
  let s1 := final ((setPipelineVariables Demo.newPipeline ;; checkPipeline)
                     Demo.start) in
  let s2 := final (createResources Demo.newPipeline s1) in
  createResources Demo.newPipeline s1 = Throw s2
  /\ dom (RESOURCES s2)
     = {[ "region"; "LambdaExecutionRole"; "LambdaExecutionPolicy1";
          "LambdaExecutionPolicy2" ]}
  /\ exists s3,
       createUpdateAWSpipeline Demo.newPipeline Demo.start = Ret tt s3
       /\ removeAWSpipelineResources (RESOURCES s2) (pb s2 quiet) s2
          = Ret tt s3
       /\ lastStored (trace s2) = Some (RESOURCES s2)
       /\ trace s3 = trace s2 ++ map Lib (removalCommands (RESOURCES s2)).
Proof.
  intros s1 s2. split; [vm_compute; reflexivity|].
  split; [vm_compute; reflexivity|].
  apply (rollback_on_failure Demo.newPipeline Demo.start s1 s2);
    vm_compute; reflexivity.
Defined.

End PipelineProofs.

(* ===================================================================== *)
(** * main.js: the command-line pipeline *)
(* ===================================================================== *)

Module MainProofs.
Import Js World Eff Spec Rules Main.
Import MainVar.
Local Open Scope list_scope.
Local Open Scope eff_scope.

Section MainProofs.
Context {World Model : Type} `{!Collaborators World Model}.

Local Abbreviation M := (@Eff.M World Model).
Local Abbreviation state := (@Eff.state World Model).

Ltac side_plain := cbn in *; intuition (try congruence; eauto).

(** ** The arguments *)

Lemma is_case_In val labels : is_case val labels = true -> In val labels.
Proof.
  unfold is_case. rewrite existsb_exists. intros (x & Hx & E).
  apply String.eqb_eq in E. by subst.
Qed.

Ltac case_labels E :=
  apply is_case_In in E; cbn in E;
  repeat match type of E with
         | _ \/ _ => destruct E as [E|E]
         | False => destruct E
         end; subst.

Lemma processArg_step array val index (s : state) :
  match processArg array val index s with
  | Ret _ s' => argStep val s s'
  | Exit c _ => c = 0%Z
  | Throw _ => False
  end.
Proof.
  unfold processArg. cbv zeta.
  repeat match goal with
  | |- context [if is_case val ?L then _ else _] =>
      let E := fresh "E" in
      destruct (is_case val L) eqn:E;
      [ case_labels E; cbn; unfold argStep; cbn;
        rewrite ?andb_true_r, ?orb_false_r, ?andb_false_r, ?orb_true_r;
        try done; by repeat split
      | ]
  end.
  cbn. unfold argStep, noMutationsLabels, iamLabels, clientSchemaLabels,
    sourceSchemaLabels, is_case in *. cbn in *.
  repeat match goal with
         | H : _ || _ = false |- _ =>
             apply orb_false_elim in H; destruct H
         end.
  repeat match goal with
         | H : String.eqb _ _ = false |- _ => rewrite H; clear H
         end.
  rewrite andb_true_r, orb_false_r. done.
Qed.

Lemma forEach_processArg array l index (s : state) :
  match forEach_from index l (processArg array) s with
  | Ret _ s' => argsRead l s s'
  | Exit c _ => c = 0%Z
  | Throw _ => False
  end.
Proof.
  revert index s. induction l as [|val l IH]; intros index s; cbn.
  - unfold argsRead, hasOption. cbn.
    rewrite andb_true_r, orb_false_r. done.
  - unfold bind. pose proof (processArg_step array val index s) as H1.
    destruct (processArg array val index s) as [[] s1|s1|c s1]; [|done..].
    specialize (IH (S index) s1).
    destruct (forEach_from _ _ _ s1) as [[] s2|s2|c s2]; [|done..].
    destruct H1 as (A1 & A2 & A3 & A4 & A5).
    destruct IH as (B1 & B2 & B3 & B4 & B5).
    unfold argsRead, hasOption in *. cbn.
    rewrite B1, A1, B2, A2, B3, A3.
    repeat split.
    + by rewrite negb_orb, andb_assoc.
    + by rewrite orb_assoc.
    + intros [E1 E2]%orb_false_elim. by rewrite B4, A4.
    + intros [E1 E2]%orb_false_elim. by rewrite B5, A5.
Qed.

(** [processArgs] returns or ends the process with code 0, and the
    variables are as the options say. *)
Lemma processArgs_read argv (s : state) :
  match processArgs argv s with
  | Ret _ s' => argsRead argv s s'
  | Exit c _ => c = 0%Z
  | Throw _ => False
  end.
Proof. apply forEach_processArg. Qed.

Lemma processArgs_silent argv (s : state) :
  trace (final (processArgs argv s)) = trace s.
Proof.
  assert (K : keeps_at (fun _ => True) (fun _ => False) (processArgs argv) s).
  { unfold processArgs. repeat keeps_step ltac:(done). }
  destruct (K I) as [_ E]. by apply extends_False.
Qed.

(** ** The mutations flag *)





(** ** The neptune type *)

Ltac side_fixed :=
  cbn in *; unfold pipelineFixed, fixed in *; cbn in *;
  intuition (try congruence; eauto).

Lemma createUpdateAWSpipeline_fixed T B a (s : state) :
  World.neptuneType a = T -> World.isNeptuneIAMAuth a = B ->
  keeps_at (fixed T B) (uses T B) (Pipeline.createUpdateAWSpipeline a) s.
Proof.
  intros Ha Hb. unfold Pipeline.createUpdateAWSpipeline.
  apply (keeps_at_bind_change _ _ (pipelineFixed T B)).
  - by intros s' [? ?].
  - intros HI. cbn. split; [by split|].
    exists []. cbn. split; [by rewrite app_nil_r | constructor].
  - intros _ s'. repeat keeps_step side_fixed.
Qed.

Ltac hook_fixed :=
  lazymatch goal with
  | |- keeps_at _ _ (Pipeline.createUpdateAWSpipeline _) _ =>
      apply createUpdateAWSpipeline_fixed; side_fixed
  end.

Ltac keeps_fixed :=
  repeat (cbv beta zeta; first [hook_fixed | keeps_step side_fixed]).

Lemma readArguments_fixed argv w (s1 : state) :
  readArguments argv (initial w) = Ret tt s1 ->
  fixed (JString NEPTUNE_DB) (hasOption iamLabels argv) s1.
Proof.
  unfold readArguments. intros H.
  apply bind_Ret_inv in H as ([] & s0 & H0 & H).
  assert (s0 = initial w) as ->.
  { destruct (length argv <=? 2)%nat; cbn in H0; by inversion H0. }
  clear H0.
  apply bind_Ret_inv in H as ([] & s0 & H0 & H).
  pose proof (processArgs_read argv (initial w)) as Hp.
  rewrite H0 in Hp. destruct Hp as (_ & Hb & Hn & _).
  assert (K : keeps_at (fixed (JString NEPTUNE_DB) (hasOption iamLabels argv))
                       (fun _ => True) getGraphDBSchemaFromFile s0).
  { keeps_fixed. }
  destruct K as [K _]; [by split|]. by rewrite H in K.
Qed.

Lemma main_after_arguments argv (s s1 : state) :
  readArguments argv s = Ret tt s1 ->
  main argv s = (checkNeptuneAnalytics ;; afterDetection) s1.
Proof.
  intros H. unfold readArguments in H.
  apply bind_Ret_inv in H as ([] & s0 & H0 & H).
  apply bind_Ret_inv in H as ([] & s0' & H0' & H).
  unfold main.
  erewrite bind_Ret; [|exact H0].
  erewrite bind_Ret; [|exact H0'].
  erewrite bind_Ret; [|exact H]. reflexivity.
Qed.

Lemma checkNeptuneAnalytics_outcome (s : state) :
  checkNeptuneAnalytics s =
  match nonEmptyEndpoints s with
  | [] => Ret tt s
  | endpoint :: _ =>
      match domainOf endpoint with
      | None => Throw s
      | Some domain =>
          if includes NEPTUNE_GRAPH domain then Ret tt (analytics s)
          else Ret tt s
      end
  end.
Proof.
  unfold checkNeptuneAnalytics, domainOf, parseNeptuneDomainFromEndpoint.
  unfold bind, get.
  destruct (nonEmptyEndpoints s) as [|[| |e] rest]; try reflexivity.
  cbn. destruct (Util.parseNeptuneDomainFromEndpoint e) as [domain|msg];
    [|reflexivity].
  cbn. by destruct (includes NEPTUNE_GRAPH domain).
Qed.

Lemma afterDetection_fixed T B (s : state) :
  keeps_at (fixed T B) (uses T B) afterDetection s.
Proof. unfold afterDetection. keeps_fixed. Qed.

(** C10. When the arguments have been read, [neptuneType] is 'neptune-db'
    and [isNeptuneIAMAuth] is true exactly when one of the IAM options is
    among the arguments. [main] then looks at the first endpoint that is
    not [''] among the introspection endpoint, the pipeline endpoint and
    the CDK endpoint, and at no other: without one, the run goes on with
    these two values; when its domain cannot be parsed, [main] throws
    there; when its domain contains 'neptune-graph', the rest of the run has
    [neptuneType] at 'neptune-graph' and [isNeptuneIAMAuth] at true,
    whatever the IAM options; otherwise the rest of the run keeps
    'neptune-db' and the value from the options. *)
Theorem neptune_type_detection (argv : list string) (w : World) (s1 : state) :
  readArguments argv (initial w) = Ret tt s1 ->
  fixed (JString NEPTUNE_DB) (hasOption iamLabels argv) s1
  /\ match nonEmptyEndpoints s1 with
     | [] =>
         runsWith (JString NEPTUNE_DB) (hasOption iamLabels argv) s1
                  (main argv (initial w))
     | endpoint :: _ =>
         match domainOf endpoint with
         | None => main argv (initial w) = Throw s1
         | Some domain =>
             if includes NEPTUNE_GRAPH domain then
               runsWith (JString NEPTUNE_GRAPH) true s1 (main argv (initial w))
             else
               runsWith (JString NEPTUNE_DB) (hasOption iamLabels argv) s1
                        (main argv (initial w))
         end
     end.
Proof.
  intros H. pose proof (readArguments_fixed _ _ _ H) as Hf.
  split; [done|].
  generalize (main_after_arguments _ _ _ H).
  generalize (main argv (initial w)). intros o Ho.
  pose proof afterDetection_fixed as K.
  unfold bind at 1 in Ho. rewrite checkNeptuneAnalytics_outcome in Ho.
  clear H.
  destruct (nonEmptyEndpoints s1) as [|endpoint rest];
    [rewrite Ho; by apply K|].
  destruct (domainOf endpoint) as [domain|]; [|done].
  destruct (includes NEPTUNE_GRAPH domain); rewrite Ho; [|by apply K].
  destruct (K (JString NEPTUNE_GRAPH) true (analytics s1)) as [K1 K2];
    [done|].
  split; [done|]. destruct K2 as (l & E & F). by exists l.
Qed.

(** ** The query client and the Lambda package *)

Lemma main_phases argv (s : state) :
  main argv s = (detection argv ;; afterDetection) s.
Proof.
  unfold main, detection, readArguments, afterDetection.
  rewrite ?bind_assoc. apply bind_ext. intros _ s1.
  rewrite ?bind_assoc. apply bind_ext. intros _ s2.
  rewrite ?bind_assoc. reflexivity.
Qed.

Lemma jsval_eqb_eq a b : jsval_eqb a b = true <-> a = b.
Proof.
  destruct a, b; cbn; try (split; [discriminate|congruence]); try done.
  rewrite String.eqb_eq. split; congruence.
Qed.

Lemma beforeClient_selects C T (e : event Model) :
  beforeClient e -> clientSelects C T e.
Proof. by destruct e as [c|[]]. Qed.

Ltac side_client :=
  cbn in *;
  unfold packageSelected, clientIs, validClient, clients, packageFor,
         lambdaPackageFolder, NEPTUNE_DB, NEPTUNE_GRAPH in *;
  cbn in *;
  intuition (try congruence; eauto).

Lemma detection_validClient argv (s : state) :
  validClient s -> keeps_at validClient beforeClient (detection argv) s.
Proof.
  intros _. unfold detection, readArguments.
  repeat keeps_step side_client.
Qed.

Lemma selectLambdaPackage_selected C T (s : state) :
  clientIs C T s ->
  packageSelected C T (final (selectLambdaPackage s))
  /\ trace (final (selectLambdaPackage s)) = trace s.
Proof.
  intros [HC HT]. unfold selectLambdaPackage, bind, get.
  destruct (jsval_eqb (ms s queryClient) (JString "http")) eqn:E1.
  { apply jsval_eqb_eq in E1. cbn. side_client. }
  destruct (jsval_eqb (ms s queryClient) (JString "sdk")) eqn:E2.
  - apply jsval_eqb_eq in E2.
    destruct (jsval_eqb (ms s neptuneType) (JString NEPTUNE_DB)) eqn:E3.
    + apply jsval_eqb_eq in E3. cbn. side_client.
    + assert (ms s neptuneType <> JString NEPTUNE_DB).
      { intros E. apply jsval_eqb_eq in E. congruence. }
      cbn. side_client.
  - assert (ms s queryClient <> JString "http").
    { intros E. apply jsval_eqb_eq in E. congruence. }
    assert (ms s queryClient <> JString "sdk").
    { intros E. apply jsval_eqb_eq in E. congruence. }
    cbn. side_client.
Qed.

Ltac hook_client :=
  lazymatch goal with
  | |- keeps_at (clientIs ?C ?T) _ (bind selectLambdaPackage _) _ =>
      apply (keeps_at_bind_change _ _ (packageSelected C T));
      [ by intros ? [? ?]
      | let HI := fresh in
        intros HI;
        destruct (selectLambdaPackage_selected C T _ HI) as [? ?];
        split; [done|];
        exists []; split; [by rewrite app_nil_r | constructor]
      | intros ? ? ]
  end.

Lemma afterDetection_client C T (s : state) :
  keeps_at (clientIs C T) (clientSelects C T) afterDetection s.
Proof.
  unfold afterDetection.
  repeat (cbv beta zeta; first [hook_client | keeps_step side_client]).
Qed.

(** C3 (amended). In every run of [main] the query client is one of 'sdk',
    'http' and 'client' (the value that [-orc] sets); every call of the
    resolver generator receives it; when it is 'http' the Lambda package
    that is zipped and passed to the pipeline and to the CDK is the HTTP
    template, and when it is 'sdk' it is the SDK template of the neptune
    type ('neptune-db' or 'neptune-graph'). *)
Theorem client_and_package (argv : list string) (w : World) :
  let s := final (main argv (initial w)) in
  In (ms s queryClient) clients
  /\ Forall (clientSelects (ms s queryClient) (ms s neptuneType)) (trace s).
Proof.
  cbv zeta. rewrite main_phases.
  apply (final_two_phases validClient beforeClient
           (fun s => In (ms s queryClient) clients
                     /\ Forall (clientSelects (ms s queryClient)
                                              (ms s neptuneType)) (trace s))).
  - apply detection_validClient. side_client.
  - side_client.
  - intros s' [Hc _] (l & E & F). split; [done|]. rewrite E. cbn.
    eapply Forall_impl; [exact F|]. intros e. apply beforeClient_selects.
  - intros _ s' [Hc _] (l & E & F).
    destruct (afterDetection_client (ms s' queryClient) (ms s' neptuneType) s')
      as [[E1 E2] (l' & E' & F')]; [done|].
    rewrite E1, E2. split; [done|]. rewrite E', E. cbn.
    apply Forall_app. split; [|done].
    eapply Forall_impl; [exact F|]. intros e. apply beforeClient_selects.
Qed.

(** ** The resolver *)

Lemma main_around_generation argv (s : state) :
  main argv s =
  ((beforeChanges argv ;; applyChanges) ;;
   parseValidateGenerate ;; afterGeneration) s.
Proof.
  unfold main, beforeChanges, afterGeneration.
  repeat (rewrite ?bind_assoc; apply bind_ext; intros _ ?).
  reflexivity.
Qed.







(** ** The change engine, the parser and the validator *)








(** ** The two schema outputs *)

Lemma main_Ret argv (s0 sf : state) :
  main argv s0 = Ret tt sf ->
  exists s1 s2 s3 s4 s5,
    processArgs argv s0 = Ret tt s1
    /\ loadInputs s1 = Ret tt s2
    /\ parseValidateGenerate s2 = Ret tt s3
    /\ initOutputFolder s3 = Ret tt s4
    /\ outputs s4 = Ret tt s5
    /\ removePipeline s5 = Ret tt sf.
Proof.
  unfold main. intros H.
  apply bind_Ret_inv in H as ([] & s0' & H0 & H).
  assert (s0' = s0) as ->.
  { destruct (length argv <=? 2)%nat; cbn in H0; by inversion H0. }
  clear H0.
  apply bind_Ret_inv in H as ([] & s1 & H1 & H).
  exists s1.
  assert (exists s2, loadInputs s1 = Ret tt s2 /\
            (parseValidateGenerate ;; initOutputFolder ;; outputs ;;
             removePipeline) s2 = Ret tt sf) as (s2 & H2 & H').
  { unfold loadInputs.
    do 9 (apply bind_Ret_inv in H as ([] & ? & ? & H)).
    eexists. split; [|exact H].
    do 8 (erewrite bind_Ret; [|eassumption]). eassumption. }
  clear H. exists s2.
  apply bind_Ret_inv in H' as ([] & s3 & H3 & H).
  apply bind_Ret_inv in H as ([] & s4 & H4 & H).
  apply bind_Ret_inv in H as ([] & s5 & H5 & H).
  by exists s3, s4, s5.
Qed.

Ltac side_schema :=
  cbn in *; unfold schemaFrozen, filesFrozen, notStringify in *; cbn in *;
  intuition (try congruence; eauto).

Lemma processArgs_stringify argv (s : state) :
  keeps_at (fun _ => True) notStringify (processArgs argv) s.
Proof. unfold processArgs. repeat keeps_step side_schema. Qed.

Lemma loadInputs_files s0 (s : state) :
  keeps_at (filesFrozen s0) notStringify loadInputs s.
Proof. unfold loadInputs. repeat keeps_step side_schema. Qed.

Lemma initOutputFolder_schema s0 (s : state) :
  keeps_at (schemaFrozen s0) notStringify initOutputFolder s.
Proof. repeat keeps_step side_schema. Qed.

Lemma otherOutputs_schema s0 (s : state) :
  keeps_at (schemaFrozen s0) notStringify otherOutputs s.
Proof. unfold otherOutputs. repeat keeps_step side_schema. Qed.

Lemma removePipeline_schema s0 (s : state) :
  keeps_at (schemaFrozen s0) notStringify removePipeline s.
Proof. repeat keeps_step side_schema. Qed.

(** The parser and the validator have run when [parseValidateGenerate]
    returns on a schema that is not empty. *)
Lemma parseValidateGenerate_Ret (s s' : state) :
  parseValidateGenerate s = Ret tt s' ->
  loose_nonempty (ms s inputGraphQLSchema) = true ->
  (exists parsed,
     schemaParser (ms s inputGraphQLSchema) = Some parsed
     /\ validatedSchemaModel parsed (mb s quiet) = Some (schemaModel s'))
  /\ filesFrozen s s'
  /\ ms s' inputGraphQLSchema = ms s inputGraphQLSchema
  /\ extends notStringify s s'.
Proof.
  unfold parseValidateGenerate, generateResolver.
  unfold bind, call_pass, get, set_schemaModel, set_ms.
  intros H HN. rewrite HN in H. cbn in H.
  destruct (schemaParser _) as [parsed|] eqn:EP; [|done]. cbn in H.
  destruct (validatedSchemaModel _ _) as [validated|] eqn:EV; [|done].
  cbn in H.
  destruct (resolverJS _ _ _ _) as [resolver|]; [|done]. cbn in H.
  destruct (resolverJS _ _ _ _) as [resolver'|]; [|done]. cbn in H.
  inversion H; subst; clear H. cbn.
  split; [by exists parsed|]. split; [done|]. split; [done|].
  eexists [_; _; _; _]. cbn. rewrite <- !app_assoc. cbn.
  split; [reflexivity|]. by repeat constructor.
Qed.

Lemma tryWriteFile_after file data (s : state) :
  tryWriteFile file data s = Ret tt (after (WriteFileSync file data) s).
Proof.
  unfold tryWriteFile, try_catch, bind, perform, after.
  by destruct (library (WriteFileSync file data) (world s)) as [[r|] w].
Qed.

Lemma outputClientSchema_Ret (s s' : state) :
  outputClientSchema s = Ret tt s' ->
  schemaOutput false outputSchemaFile ".schema.graphql" s s'
  /\ forall x, x <> outputSchema -> x <> outputSchemaFile -> ms s' x = ms s x.
Proof.
  unfold outputClientSchema.
  unfold bind at 1 2. unfold get at 1, call_pass.
  destruct (schemaStringify (schemaModel s) false) as [text|] eqn:ES; [|done].
  unfold bind at 1. cbn [set_ms]. unfold bind at 1.
  destruct (loose_empty (ms s outputSchemaFile)) eqn:EF; cbn [when set_ms ret];
    unfold bind, get; rewrite tryWriteFile_after; intros H; inversion H;
    subst; clear H; unfold after; cbn.
  all: split; [|intros x H1 H2; by rewrite !fn_lookup_insert_ne].
  all: exists text; cbn; fn_simpl; rewrite EF, <- app_assoc; by cbn.
Qed.

Lemma outputSourceSchema_Ret (s s' : state) :
  outputSourceSchema_ s = Ret tt s' ->
  schemaOutput true outputSourceSchemaFile ".source.schema.graphql" s s'
  /\ forall x, x <> outputSourceSchema -> x <> outputSourceSchemaFile ->
               ms s' x = ms s x.
Proof.
  unfold outputSourceSchema_.
  unfold bind at 1 2. unfold get at 1, call_pass.
  destruct (schemaStringify (schemaModel s) true) as [text|] eqn:ES; [|done].
  unfold bind at 1. cbn [set_ms]. unfold bind at 1.
  destruct (loose_empty (ms s outputSourceSchemaFile)) eqn:EF;
    cbn [when set_ms ret];
    unfold bind, get; rewrite tryWriteFile_after; intros H; inversion H;
    subst; clear H; unfold after; cbn.
  all: split; [|intros x H1 H2; by rewrite !fn_lookup_insert_ne].
  all: exists text; cbn; fn_simpl; rewrite EF, <- app_assoc; by cbn.
Qed.

Lemma append_inj_l (p q1 q2 : string) : p +:+ q1 = p +:+ q2 -> q1 = q2.
Proof.
  induction p as [|c p IH]; cbn; [done|]. intros H. apply IH.
  by injection H.
Qed.

Lemma defaultOutputFile_distinct (s s' : state) :
  ms s' outputFolderPath = ms s outputFolderPath ->
  ms s' createUpdatePipelineName = ms s createUpdatePipelineName ->
  defaultOutputFile s ".schema.graphql"
  <> defaultOutputFile s' ".source.schema.graphql".
Proof.
  intros E1 E2. unfold defaultOutputFile. rewrite E1, E2.
  destruct (loose_empty (ms s createUpdatePipelineName)); intros H;
    inversion H as [H']; clear H.
  - apply append_inj_l in H'. vm_compute in H'. discriminate H'.
  - do 3 apply append_inj_l in H'. vm_compute in H'. discriminate H'.
Qed.

Lemma outputs_Ret (s s' : state) :
  outputs s = Ret tt s' ->
  loose_nonempty (ms s inputGraphQLSchema) = true ->
  exists s1 s2,
    outputClientSchema s = Ret tt s1
    /\ outputSourceSchema_ s1 = Ret tt s2
    /\ otherOutputs s2 = Ret tt s'.
Proof.
  unfold outputs. change (bind get ?k s) with (k s s). cbv beta.
  intros H HN. rewrite HN in H. cbn [when] in H.
  apply bind_Ret_inv in H as ([] & s1 & H1 & H).
  apply bind_Ret_inv in H as ([] & s2 & H2 & H).
  by exists s1, s2.
Qed.

Lemma tail_inputSchema schema (s : state) :
  keeps_at (fun s => ms s inputGraphQLSchema = schema) (fun _ => True)
           (parseValidateGenerate ;; initOutputFolder ;; outputs ;;
            removePipeline) s.
Proof. repeat keeps_step side_plain. Qed.

(** C4 (amended). When [main] returns and the schema is not empty, the
    schema model that the validator returned is serialised exactly twice:
    without the directives, and the text is written to [outputSchemaFile];
    then with the directives, and the text is written to
    [outputSourceSchemaFile]. When neither file name is given among the
    arguments, the two files are distinct. *)
Theorem schema_written_twice (argv : list string) (w : World) (sf : state) :
  main argv (initial w) = Ret tt sf ->
  loose_nonempty (ms sf inputGraphQLSchema) = true ->
  exists parsed client source earlier later,
    schemaParser (ms sf inputGraphQLSchema) = Some parsed
    /\ validatedSchemaModel parsed (mb sf quiet) = Some (schemaModel sf)
    /\ schemaStringify (schemaModel sf) false = Some client
    /\ schemaStringify (schemaModel sf) true = Some source
    /\ trace sf =
         earlier
         ++ [ Call (Call_schemaStringify (schemaModel sf) false);
              Lib (WriteFileSync (ms sf outputSchemaFile) client);
              Call (Call_schemaStringify (schemaModel sf) true);
              Lib (WriteFileSync (ms sf outputSourceSchemaFile) source) ]
         ++ later
    /\ Forall notStringify earlier
    /\ Forall notStringify later
    /\ (hasOption clientSchemaLabels argv = false ->
        hasOption sourceSchemaLabels argv = false ->
        ms sf outputSchemaFile <> ms sf outputSourceSchemaFile).
Proof.
  intros H HN.
  apply main_Ret in H as (s1 & s2 & s3 & s4 & s5 & H1 & H2 & H3 & H4 & H5 & H6).
  (* the schema is not empty from the parser on *)
  assert (HN2 : ms sf inputGraphQLSchema = ms s2 inputGraphQLSchema).
  { destruct (tail_inputSchema (ms s2 inputGraphQLSchema) s2) as [E _];
      [done|].
    do 3 (erewrite bind_Ret in E; [|eassumption]). by rewrite H6 in E. }
  (* the arguments *)
  pose proof (processArgs_read argv (initial w)) as Ha. rewrite H1 in Ha.
  destruct Ha as (_ & _ & _ & Ha1 & Ha2).
  destruct (processArgs_stringify argv (initial w) I) as [_ X1].
  rewrite H1 in X1. cbn [final] in X1.
  (* loading *)
  destruct (loadInputs_files s1 s1) as [(Q2 & F2 & G2) X2]; [done|].
  rewrite H2 in Q2, F2, G2, X2. cbn [final] in Q2, F2, G2, X2.
  (* parser and validator *)
  rewrite HN2 in HN.
  destruct (parseValidateGenerate_Ret s2 s3 H3 HN)
    as ((parsed & EP & EV) & (Q3 & F3 & G3) & E3 & X3).
  (* the output folder *)
  destruct (initOutputFolder_schema s3 s3) as [(E4 & Q4 & M4 & F4 & G4) X4];
    [done|].
  rewrite H4 in E4, Q4, M4, F4, G4, X4. cbn [final] in E4, Q4, M4, F4, G4, X4.
  (* the two schema outputs *)
  assert (HN4 : loose_nonempty (ms s4 inputGraphQLSchema) = true)
    by (by rewrite E4, E3).
  destruct (outputs_Ret s4 s5 H5 HN4) as (sa & sb & Hc & Hs & Ho).
  destruct (outputClientSchema_Ret s4 sa Hc)
    as ((client & SC & TC & FC & MC & BC) & RC).
  destruct (outputSourceSchema_Ret sa sb Hs)
    as ((source & SS & TS & FS & MS & BS) & RS).
  (* the other outputs and the removal *)
  destruct (otherOutputs_schema sb sb) as [(E5 & Q5 & M5 & F5 & G5) X5];
    [done|].
  rewrite Ho in E5, Q5, M5, F5, G5, X5. cbn [final] in E5, Q5, M5, F5, G5, X5.
  destruct (removePipeline_schema s5 s5) as [(E6 & Q6 & M6 & F6 & G6) X6];
    [done|].
  rewrite H6 in E6, Q6, M6, F6, G6, X6. cbn [final] in E6, Q6, M6, F6, G6, X6.
  destruct X5 as (l5 & T5 & L5). destruct X6 as (l6 & T6 & L6).
  (* the final values *)
  assert (EM : schemaModel sf = schemaModel s4) by congruence.
  assert (EF1 : ms sf outputSchemaFile = ms sa outputSchemaFile).
  { rewrite F6, F5. by apply RS. }
  assert (EF2 : ms sf outputSourceSchemaFile = ms sb outputSourceSchemaFile)
    by congruence.
  assert (EQ : mb sf quiet = mb s2 quiet).
  { rewrite Q6, Q5, BS, BC, Q4. exact Q3. }
  exists parsed, client, source, (trace s4), (l5 ++ l6).
  rewrite HN2, EQ, EM, EF1, EF2.
  split; [done|]. split; [by rewrite M4|]. split; [done|].
  split; [by rewrite <- MC|]. split.
  { rewrite T6, T5, TS, TC, MC. rewrite <- !app_assoc. reflexivity. }
  split.
  { eapply extends_Forall; [|exact X4].
    eapply extends_Forall; [|exact X3].
    eapply extends_Forall; [|exact X2].
    eapply extends_Forall; [|exact X1]. constructor. }
  split; [by apply Forall_app|].
  intros O1 O2.
  assert (Z1 : ms s4 outputSchemaFile = JString "").
  { rewrite F4, F3, F2. by apply Ha1. }
  assert (Z2 : ms sa outputSourceSchemaFile = JString "").
  { rewrite RC by done. rewrite G4, G3, G2. by apply Ha2. }
  rewrite FC, FS, Z1, Z2. cbn [loose_empty String.eqb].
  apply defaultOutputFile_distinct; by apply RC.
Qed.
End MainProofs.

(** ** Runs in the concrete environment *)

(** With a graph endpoint for the CDK, the rest of the run has the neptune
    type at 'neptune-graph' and the IAM setting at true. *)
Lemma neptune_type_detection_witness :
  let s1 := final (readArguments Demo.analyticsCDK Demo.start) in
  readArguments Demo.analyticsCDK Demo.start = Ret tt s1
  /\ fixed (JString NEPTUNE_DB) false s1
  /\ runsWith (JString NEPTUNE_GRAPH) true s1
              (main Demo.analyticsCDK Demo.start).
Proof.
  intros s1.
  assert (H : readArguments Demo.analyticsCDK Demo.start = Ret tt s1)
    by (vm_compute; reflexivity).
  split; [exact H|].
  pose proof (neptune_type_detection Demo.analyticsCDK tt s1 H) as [K1 K2].
  split; [exact K1|].
  assert (E : nonEmptyEndpoints s1
              = [JString "g-abcdef.us-west-2.neptune-graph.amazonaws.com:8182"])
    by (vm_compute; reflexivity).
  rewrite E in K2. exact K2.
Defined.


(** C3, as stated, fails with the option [-orc]: the resolver generator
    receives the client 'client', which is neither 'sdk' nor 'http'. *)
Lemma client_outside_sdk_http :
  let s := final (main Demo.clientOption Demo.start) in
  ms s queryClient = JString "client"
  /\ resolverCalls s
     = [ Call (Call_resolverJS Demo.parsed (JString "opencypher")
                 (JString "client") "/opt/utility/src");
         Call (Call_resolverJS Demo.parsed (JString "opencypher")
                 (JString "client") "/opt/utility/src") ]
  /\ resolverClientsIn [JString "sdk"; JString "http"] (trace s) = false.
Proof.
  intros s. repeat (split; [vm_compute; reflexivity|]).
  vm_compute; reflexivity.
Qed.

(** C4, as stated, fails when [-os] and [-oss] name the same file: the run
    returns with a schema that is not empty, and the two serialisations are
    written to one file, the second over the first. *)
Lemma schema_outputs_same_file :
  let sf := final (main Demo.sameSchemaFile Demo.start) in
  main Demo.sameSchemaFile Demo.start = Ret tt sf
  /\ loose_nonempty (ms sf inputGraphQLSchema) = true
  /\ ms sf outputSchemaFile = ms sf outputSourceSchemaFile
  /\ writtenTo (ms sf outputSchemaFile) (trace sf)
     = [JString "type Airport"; JString "type Airport @alias"].
Proof.
  intros sf. repeat (split; [vm_compute; reflexivity|]).
  vm_compute; reflexivity.
Qed.

(** Without [-os] and [-oss] the two schema files are the default ones. *)
Lemma schema_written_twice_witness :
  let sf := final (main Demo.schemaOnly Demo.start) in
  main Demo.schemaOnly Demo.start = Ret tt sf
  /\ loose_nonempty (ms sf inputGraphQLSchema) = true
  /\ ms sf outputSchemaFile <> ms sf outputSourceSchemaFile.
Proof.
  intros sf.
  assert (H : main Demo.schemaOnly Demo.start = Ret tt sf)
    by (vm_compute; reflexivity).
  assert (HN : loose_nonempty (ms sf inputGraphQLSchema) = true)
    by (vm_compute; reflexivity).
  split; [exact H|]. split; [exact HN|].
  destruct (schema_written_twice Demo.schemaOnly tt sf H HN)
    as (parsed & client & source & earlier & later & _ & _ & _ & _ & _ & _
        & _ & D).
  apply D; vm_compute; reflexivity.
Defined.

End MainProofs.

(* ===================================================================== *)
(** * util.js: hosts, domains and graph names *)
(* ===================================================================== *)

Module UtilMore.
Import Js Util UtilSpec.
Local Open Scope list_scope.

Lemma includes_char_cons sep c p :
  includes (String sep "") (String c p)
  = Ascii.eqb c sep || includes (String sep "") p.
Proof.
  cbn. destruct (ascii_dec sep c) as [->|N].
  - rewrite Ascii.eqb_refl. by destruct p.
  - assert (Ascii.eqb c sep = false) as ->
      by (apply Ascii.eqb_neq; congruence).
    done.
Qed.

Lemma join_cons sep p q ps :
  join sep (p :: q :: ps) = p +:+ sep +:+ join sep (q :: ps).
Proof. reflexivity. Qed.

Lemma split_cons sep c s :
  split sep (String c s)
  = if Ascii.eqb c sep then "" :: split sep s
    else match split sep s with
         | [] => [String c ""]
         | p :: ps => String c p :: ps
         end.
Proof. reflexivity. Qed.

Lemma split_nonempty (sep : ascii) (s : string) : split sep s <> [].
Proof.
  destruct s as [|c s]; [discriminate|]. rewrite split_cons.
  destruct (Ascii.eqb c sep); [discriminate|].
  destruct (split sep s); discriminate.
Qed.

(** Joining the parts of a split gives the string back. *)
Lemma join_split sep s : join (String sep "") (split sep s) = s.
Proof.
  induction s as [|c s IH]; [reflexivity|].
  rewrite split_cons. destruct (Ascii.eqb_spec c sep) as [->|N].
  - destruct (split sep s) as [|p ps] eqn:E;
      [by destruct (split_nonempty sep s)|].
    rewrite join_cons, IH. reflexivity.
  - destruct (split sep s) as [|p ps] eqn:E;
      [by destruct (split_nonempty sep s)|].
    destruct ps as [|q ps]; cbn in *; by rewrite <- IH.
Qed.

(** No part of a split contains the separator. *)
Lemma split_free sep s : Forall (free_of sep) (split sep s).
Proof.
  induction s as [|c s IH]; [by repeat constructor|].
  rewrite split_cons. destruct (Ascii.eqb_spec c sep) as [->|N].
  - constructor; [reflexivity | done].
  - apply Ascii.eqb_neq in N.
    destruct (split sep s) as [|p ps].
    + constructor; [|constructor].
      unfold free_of. by rewrite includes_char_cons, N.
    + apply Forall_cons in IH as [Hp Hps]. constructor; [|done].
      unfold free_of in *. by rewrite includes_char_cons, Hp, N.
Qed.

Lemma split_app_sep sep p rest :
  free_of sep p ->
  split sep (p +:+ String sep rest) = p :: split sep rest.
Proof.
  unfold free_of. induction p as [|c p IH]; intros Hp.
  - change ("" +:+ String sep rest) with (String sep rest).
    by rewrite split_cons, Ascii.eqb_refl.
  - rewrite includes_char_cons in Hp. apply orb_false_elim in Hp as [Hc Hp].
    change (String c p +:+ String sep rest)
      with (String c (p +:+ String sep rest)).
    rewrite split_cons, Hc, IH by done. reflexivity.
Qed.

(** A string without separator is its own only part. *)
Lemma split_one sep p : free_of sep p -> split sep p = [p].
Proof.
  unfold free_of. induction p as [|c p IH]; intros Hp; [reflexivity|].
  rewrite includes_char_cons in Hp. apply orb_false_elim in Hp as [Hc Hp].
  by rewrite split_cons, Hc, IH.
Qed.

(** Splitting the join of parts that contain no separator gives the parts
    back. *)
Lemma split_join sep parts :
  parts <> [] -> Forall (free_of sep) parts ->
  split sep (join (String sep "") parts) = parts.
Proof.
  induction parts as [|p ps IH]; [done|]. intros _ F.
  apply Forall_cons in F as [Hp Hps].
  destruct ps as [|q ps]; [by apply split_one|].
  rewrite join_cons. change (String sep "" +:+ ?x) with (String sep x).
  rewrite split_app_sep by done. f_equal. by apply IH.
Qed.

Lemma append_assoc (a b c : string) : (a +:+ b) +:+ c = a +:+ (b +:+ c).
Proof.
  induction a as [|x a IH]; [done|].
  change (String x ((a +:+ b) +:+ c) = String x (a +:+ (b +:+ c))).
  by rewrite IH.
Qed.

Lemma join_app sep l1 l2 :
  l1 <> [] -> l2 <> [] ->
  join sep (l1 ++ l2) = join sep l1 +:+ sep +:+ join sep l2.
Proof.
  intros H1 H2. induction l1 as [|p ps IH]; [done|].
  destruct ps as [|q ps].
  - destruct l2 as [|r l2]; [done|]. reflexivity.
  - change ((p :: q :: ps) ++ l2) with (p :: q :: (ps ++ l2)).
    rewrite !join_cons.
    change (q :: ps ++ l2) with ((q :: ps) ++ l2). rewrite IH by done.
    by rewrite !append_assoc.
Qed.



(** X1. [parseNeptuneDomainFromHost] throws exactly on a host with fewer
    than five '.'-separated parts; the domain it returns is the end of the
    host, after a '.', and has exactly three parts, and what comes before it
    has at least two. *)
Theorem parseNeptuneDomainFromHost_suffix (host : string) :
  match parseNeptuneDomainFromHost host with
  | Ok domain =>
      exists prefix,
        host = prefix +:+ "." +:+ domain
        /\ length (split "." domain) = 3
        /\ 2 <= length (split "." prefix)
  | Error _ => length (split "." host) < 5
  end.
Proof.
  unfold parseNeptuneDomainFromHost, splitHost, MIN_HOST_PARTS,
    NUM_DOMAIN_PARTS, splice_removed.
  change (split HOST_DELIMITER host) with (split "." host).
  destruct (decide (length (split "." host) < 5)) as [?|N]; [done|].
  pose proof (join_split "." host) as J.
  pose proof (split_free "." host) as F.
  set (parts := split "." host) in *.
  set (n := length parts - 3).
  assert (length (take n parts) = n) by (rewrite length_take; lia).
  assert (length (drop n parts) = 3) by (rewrite length_drop; lia).
  rewrite take_ge by lia.
  exists (join "." (take n parts)).
  rewrite <- (take_drop n parts) in J, F.
  apply Forall_app in F as [F1 F2].
  assert (take n parts <> []) by (intros E; rewrite E in *; cbn in *; lia).
  assert (drop n parts <> []) by (intros E; rewrite E in *; cbn in *; lia).
  rewrite join_app in J by done.
  change HOST_DELIMITER with "."%char.
  split; [done|]. rewrite !split_join by done. lia.
Qed.

(** X2. [parseNeptuneGraphName] throws exactly on a host with fewer than
    five '.'-separated parts; the name it returns is the text of the host
    before its first '.', and at least four parts follow it. *)
Theorem parseNeptuneGraphName_prefix (host : string) :
  match parseNeptuneGraphName host with
  | Ok name =>
      exists graph rest,
        name = JString graph
        /\ host = graph +:+ "." +:+ rest
        /\ includes "." graph = false
        /\ 4 <= length (split "." rest)
  | Error _ => length (split "." host) < 5
  end.
Proof.
  unfold parseNeptuneGraphName, splitHost, MIN_HOST_PARTS.
  change (split HOST_DELIMITER host) with (split "." host).
  destruct (decide (length (split "." host) < 5)) as [?|N]; [done|].
  pose proof (join_split "." host) as J.
  pose proof (split_free "." host) as F.
  destruct (split "." host) as [|graph [|p ps]]; cbn in N; [lia..|].
  apply Forall_cons in F as [Hg F].
  exists graph, (join "." (p :: ps)).
  split; [reflexivity|]. split; [by rewrite <- J|]. split; [exact Hg|].
  rewrite split_join by done. cbn in *. lia.
Qed.

(** X3. On an endpoint [host:port] in which neither the host nor the port
    contains a ':', [parseNeptuneDomainFromEndpoint] is
    [parseNeptuneDomainFromHost] on the host: the port plays no part, and
    an error of the host is the error of the endpoint. *)
Theorem parseNeptuneDomainFromEndpoint_host_port (host port : string) :
  includes ":" host = false -> includes ":" port = false ->
  parseNeptuneDomainFromEndpoint (host +:+ ":" +:+ port)
  = parseNeptuneDomainFromHost host.
Proof.
  intros Hh Hp. unfold parseNeptuneDomainFromEndpoint.
  change (split ENDPOINT_DELIMITER (host +:+ ":" +:+ port))
    with (split ":" (host +:+ String ":" port)).
  rewrite split_app_sep, (split_one ":" port) by done.
  reflexivity.
Qed.

Lemma parseNeptuneDomainFromEndpoint_host_port_witness :
  includes ":" "db.cluster-abc.us-east-1.neptune.amazonaws.com" = false
  /\ includes ":" "8182" = false
  /\ parseNeptuneDomainFromEndpoint
       ("db.cluster-abc.us-east-1.neptune.amazonaws.com" +:+ ":" +:+ "8182")
     = parseNeptuneDomainFromHost
         "db.cluster-abc.us-east-1.neptune.amazonaws.com".
Proof.
  split; [reflexivity|]. split; [reflexivity|].
  apply parseNeptuneDomainFromEndpoint_host_port; reflexivity.
Defined.

End UtilMore.

(* ===================================================================== *)
(** * pipelineResources.js: how the steps of the pipeline behave *)
(* ===================================================================== *)

Module PipelineMore.
Import Js World Eff Spec Rules Pipeline PipelineSpec.
Import PipeVar.
Local Open Scope list_scope.
Local Open Scope eff_scope.

Section PipelineMore.
Context {World Model : Type} `{!Collaborators World Model}.

Local Abbreviation M := (@Eff.M World Model).
Local Abbreviation state := (@Eff.state World Model).

(** ** How computations end *)

Lemma exitsOnlyWith_bind code {A B} (m : M A) (k : A -> M B) s :
  exitsOnlyWith code (m s) ->
  (forall a s', exitsOnlyWith code (k a s')) ->
  exitsOnlyWith code (bind m k s).
Proof. unfold bind. intros Hm Hk. destruct (m s); [apply Hk|done..]. Qed.

Lemma exitsOnlyWith_try code {A} (m h : M A) s :
  exitsOnlyWith code (m s) ->
  (forall s', exitsOnlyWith code (h s')) ->
  exitsOnlyWith code (try_catch m h s).
Proof.
  unfold try_catch. intros Hm Hh. destruct (m s); [done|apply Hh|done].
Qed.

Lemma exitsOnlyWith_for_of code {A} (l : list A) (body : A -> M unit) s :
  (forall x s', exitsOnlyWith code (body x s')) ->
  exitsOnlyWith code (for_of l body s).
Proof.
  intros Hb. revert s. induction l as [|x l IH]; intros s; [done|].
  cbn [for_of]. apply exitsOnlyWith_bind; [apply Hb | intros _ s'; apply IH].
Qed.

Lemma exitsOnlyWith_perform code c (s : state) :
  exitsOnlyWith code (perform c s).
Proof. unfold perform. by destruct (library c (world s)) as [[r|] w]. Qed.

Ltac exits_step :=
  cbv beta zeta;
  lazymatch goal with
  | |- exitsOnlyWith _ (bind get ?k ?s) =>
      change (bind get k s) with (k s s)
  | |- exitsOnlyWith _ (bind _ _ _) =>
      apply exitsOnlyWith_bind; [ | intros ? ? ]
  | |- exitsOnlyWith _ (try_catch _ _ _) =>
      apply exitsOnlyWith_try; [ | intros ? ]
  | |- exitsOnlyWith _ (for_of _ _ _) =>
      apply exitsOnlyWith_for_of; intros ? ?
  | |- exitsOnlyWith _ (when ?b _ _) => destruct b; [ unfold when | done ]
  | |- exitsOnlyWith _ (perform _ _) => apply exitsOnlyWith_perform
  | |- exitsOnlyWith _ (match ?x with _ => _ end _) => destruct x
  | |- exitsOnlyWith _ ((if ?x then _ else _) _) => destruct x
  | |- exitsOnlyWith _ (?m _) =>
      first [ done | let h := head_of m in unfold h ]
  end.

Lemma when_Ret_inv (b : bool) (m : M unit) (s s' : state) :
  when b m s = Ret tt s' ->
  (b = false /\ s' = s) \/ (b = true /\ m s = Ret tt s').
Proof. destruct b; cbn; [by right|]. intros [= ->]. by left. Qed.

Lemma returns_bind {A B} (m : M A) (k : A -> M B) (s : state) :
  (exists a s', m s = Ret a s') ->
  (forall a s', exists b s'', k a s' = Ret b s'') ->
  exists b s'', bind m k s = Ret b s''.
Proof. intros (a & s' & E) Hk. unfold bind. rewrite E. apply Hk. Qed.

Lemma keeps_at_for_of_In (I : state -> Prop) (P : event Model -> Prop)
    {A} (l : list A) (body : A -> M unit) s :
  (forall x s', In x l -> keeps_at I P (body x) s') ->
  keeps_at I P (for_of l body) s.
Proof.
  revert s. induction l as [|x l IH]; intros s Hb; cbn [for_of].
  - apply keeps_at_ret.
  - apply keeps_at_bind; [apply Hb; by left|].
    intros _ s'. apply IH. intros y s'' Hy. apply Hb. by right.
Qed.

Lemma keeps_at_bind_Ret (I : state -> Prop) (P : event Model -> Prop)
    {A B} (m : M A) (k : A -> M B) a s :
  m s = Ret a s -> keeps_at I P (k a) s -> keeps_at I P (bind m k) s.
Proof. intros E K. unfold keeps_at, bind. by rewrite E. Qed.

Lemma keeps_at_bind_Throw (I : state -> Prop) (P : event Model -> Prop)
    {A B} (m : M A) (k : A -> M B) s :
  m s = Throw s -> keeps_at I P (bind m k) s.
Proof.
  intros E HI. unfold bind. rewrite E. cbn. split; [done|].
  apply extends_refl.
Qed.

(** ** checkPipeline *)

Lemma checkPipeline_ends (s : state) :
  neverThrows (checkPipeline s) /\ exitsOnlyWith 1 (checkPipeline s).
Proof.
  unfold checkPipeline, send, bind, try_catch, get, perform.
  destruct (library (Send (ps s REGION) (GetFunctionCommand _)) (world s))
    as [[r1|] w1] eqn:E1; cbn;
  destruct (library (Send (ps s REGION) (ListGraphqlApisCommand _)) w1)
    as [[r2|] w2] eqn:E2; cbn.
  all: try (destruct r2; cbn).
  all: try (destruct (existsb _ names); cbn).
  all: rewrite ?E2; cbn.
  all: destruct (library (Send (ps s REGION) (GetRoleCommand _)) w2)
    as [[r3|] w3] eqn:E3; cbn.
  all: try (destruct r3; cbn).
  all: done.
Qed.

(** X4. [checkPipeline] never throws, whatever AWS answers, and ends the
    process only with code 1; it sends exactly its three lookups, in order,
    and leaves [RESOURCES] alone; and it never resets [pipelineExists]:
    once true, the flag stays true. *)
Theorem checkPipeline_lookups (s : state) :
  let o := checkPipeline s in
  neverThrows o
  /\ exitsOnlyWith 1 o
  /\ trace (final o) = trace s ++ pipelineLookups s
  /\ RESOURCES (final o) = RESOURCES s
  /\ (if pb s pipelineExists then pb (final o) pipelineExists = true
      else True).
Proof.
  unfold pipelineLookups.
  unfold checkPipeline, send, bind, try_catch, get, perform.
  destruct (pb s pipelineExists) eqn:EP.
  all: destruct (library (Send (ps s REGION) (GetFunctionCommand _)) (world s))
    as [[r1|] w1] eqn:E1; cbn;
  destruct (library (Send (ps s REGION) (ListGraphqlApisCommand _)) w1)
    as [[r2|] w2] eqn:E2; cbn.
  all: try (destruct r2; cbn).
  all: try (destruct (existsb _ names); cbn).
  all: rewrite ?E2; cbn.
  all: destruct (library (Send (ps s REGION) (GetRoleCommand _)) w2)
    as [[r3|] w3] eqn:E3; cbn.
  all: try (destruct r3; cbn).
  all: rewrite <- ?app_assoc; cbn; done.
Qed.

(** ** storeResource *)


Lemma storeResource_Ret_inv resource (s s' : state) :
  storeResource resource s = Ret tt s' ->
  RESOURCES s' = resource ∪ RESOURCES s.
Proof.
  unfold storeResource, bind, get, set_RESOURCES, perform. cbn.
  destruct (library _ (world s)) as [[r|] w']; cbn; [|done].
  by intros [= <-].
Qed.

(** ** removeAWSpipelineResources *)

(** X6. [removeAWSpipelineResources] always returns: a removal that fails
    does not stop the ones after it. It attempts every removal command of
    the resources, in order, the query policy only when the resources name
    one, and it leaves [RESOURCES] as it is. *)
Theorem removeAWSpipelineResources_returns resources quietI (s : state) :
  exists s',
    removeAWSpipelineResources resources quietI s = Ret tt s'
    /\ trace s' = trace s ++ map Lib (removalCommands resources)
    /\ RESOURCES s' = RESOURCES s
    /\ pb s' quiet = quietI.
Proof.
  unfold removeAWSpipelineResources, removalCommands.
  unfold bind at 1. cbn [set_pb].
  repeat (erewrite bind_Ret; [|apply PipelineProofs.try_send_after]).
  destruct (prop resources "NeptuneQueryPolicy") eqn:E; cbn [when].
  1,2: erewrite bind_Ret; [|reflexivity].
  3: erewrite bind_Ret; [|apply PipelineProofs.try_send_after].
  all: repeat (erewrite bind_Ret; [|apply PipelineProofs.try_send_after]).
  all: rewrite PipelineProofs.try_send_after; eexists; split; [reflexivity|].
  all: split; [rewrite !PipelineProofs.trace_after; cbn;
               rewrite <- !app_assoc; reflexivity|].
  all: split; reflexivity.
Qed.

(** ** createUpdateAWSpipeline *)

Lemma createResources_exit a (s : state) :
  exitsOnlyWith 1 (createResources a s).
Proof. unfold createResources. repeat exits_step. Qed.

Lemma updateResources_exit (s : state) :
  exitsOnlyWith 1 (updateResources s).
Proof. unfold updateResources. repeat exits_step. Qed.

(** The assignments at the head of [createUpdateAWSpipeline] return; they
    leave the trace, [RESOURCES] and [pipelineExists] as they are. *)
Lemma setPipelineVariables_Ret a (s : state) :
  exists s0,
    setPipelineVariables a s = Ret tt s0
    /\ trace s0 = trace s /\ RESOURCES s0 = RESOURCES s
    /\ pb s0 pipelineExists = pb s pipelineExists.
Proof.
  assert (R : exists u s0, setPipelineVariables a s = Ret u s0).
  { unfold setPipelineVariables.
    repeat (apply returns_bind; [by eexists _, _ | intros _ ?]).
    by eexists _, _. }
  destruct R as ([] & s0 & E). exists s0. split; [done|].
  pose proof (f_equal final E) as F. cbn [final] in F. rewrite <- F.
  cbn. by repeat split.
Qed.

Ltac side_update :=
  cbn in *; unfold updateEvent in *; cbn in *;
  intuition (try congruence; eauto).

Lemma updateResources_keeps R (s : state) :
  keeps_at (fun s => pb s pipelineExists = true /\ RESOURCES s = R)
           updateEvent updateResources s.
Proof. unfold updateResources. repeat keeps_step side_update. Qed.

(** X7. [createUpdateAWSpipeline] ends the process only with code 1, and
    throws only while it updates a pipeline that exists: a failure while it
    creates the resources of a new pipeline is caught. *)
Theorem createUpdateAWSpipeline_ends a (s : state) :
  let o := createUpdateAWSpipeline a s in
  exitsOnlyWith 1 o
  /\ match o with
     | Throw s' => pb s' pipelineExists = true
     | _ => True
     end.
Proof.
  intros o. destruct (setPipelineVariables_Ret a s) as (s0 & E0 & _).
  assert (E : o = bind checkPipeline
                    (fun _ => let* s := get in
                       if negb (pb s pipelineExists) then
                         try_catch (createResources a)
                           (let* s := get in
                            removeAWSpipelineResources (RESOURCES s)
                                                       (pb s quiet))
                       else updateResources) s0).
  { subst o. unfold createUpdateAWSpipeline. by erewrite bind_Ret. }
  clearbody o. unfold bind at 1 in E.
  destruct (checkPipeline_ends s0) as (NT & EX).
  destruct (checkPipeline s0) as [[] s1|s1|c s1]; cbn in NT, EX;
    [|done|by subst o].
  change (bind get ?k s1) with (k s1 s1) in E. cbv beta in E.
  destruct (pb s1 pipelineExists) eqn:EP; cbn [negb] in E; subst o.
  - split; [apply updateResources_exit|].
    destruct (updateResources_keeps (RESOURCES s1) s1) as [[K _] _]; [done|].
    by destruct (updateResources s1).
  - unfold try_catch. pose proof (createResources_exit a s1) as EC.
    destruct (createResources a s1) as [[] s2|s2|c s2]; [done| |done].
    change (bind get ?k s2) with (k s2 s2). cbv beta.
    destruct (PipelineProofs.removeAWSpipelineResources_trace
                (RESOURCES s2) (pb s2 quiet) s2) as (s3 & -> & _).
    done.
Qed.

(** X8. When the check finds the pipeline, [createUpdateAWSpipeline]
    creates and deletes nothing but resolvers: after the check it only
    reads the resources file, builds the package, and sends the new code,
    the new schema, the lists of resolvers and the resolvers that are
    missing; the resources file is not written and [RESOURCES] stays as it
    is. *)
Theorem update_of_existing_pipeline a (s s1 : state) :
  (setPipelineVariables a ;; checkPipeline) s = Ret tt s1 ->
  pb s1 pipelineExists = true ->
  let s' := final (createUpdateAWSpipeline a s) in
  extends updateEvent s1 s' /\ RESOURCES s' = RESOURCES s1.
Proof.
  intros H1 EP. cbv zeta. unfold createUpdateAWSpipeline.
  rewrite <- bind_assoc. erewrite bind_Ret; [|exact H1].
  change (bind get ?k s1) with (k s1 s1). cbv beta. rewrite EP. cbn [negb].
  destruct (updateResources_keeps (RESOURCES s1) s1) as [[_ K] X];
    [by split | split; [exact X | exact K]].
Qed.

(** ** getNeptuneClusterInfo *)

(** X9. Reading the cluster information never throws, whatever AWS
    answers, and ends the process only with code 1. *)
Theorem getNeptuneClusterInfo_ends a (s : state) :
  let o := getNeptuneClusterInfo a s in
  neverThrows o /\ exitsOnlyWith 1 o.
Proof.
  intros o. subst o. split.
  - unfold getNeptuneClusterInfo, try_catch.
    match goal with |- context [match ?m s with _ => _ end] =>
      destruct (m s) as [u s1|s1|c s1] end; [done| |done].
    by destruct (World.isNeptuneIAMAuth a).
  - unfold getNeptuneClusterInfo. repeat exits_step.
Qed.

(** X10. Without the IAM option, [getNeptuneClusterInfo] returns only when
    the cluster information was read, the cluster does not use IAM
    authentication and, for a Lambda package of the SDK, the version of the
    cluster is not one that predates the SDK query. *)
Theorem getNeptuneClusterInfo_without_IAM a (s s' : state) :
  World.isNeptuneIAMAuth a = false ->
  getNeptuneClusterInfo a s = Ret tt s' ->
  setNeptuneDbClusterInfo s = Ret tt s'
  /\ pb s' NEPTUNE_CURRENT_IAM = false
  /\ (if includes "SDK" (lambdaFilesPath a) then versionWithoutSDK s' = false
      else True).
Proof.
  intros Hiam Ho. unfold getNeptuneClusterInfo in Ho.
  rewrite Hiam in Ho. unfold try_catch in Ho. cbn [negb when] in Ho.
  match type of Ho with context [match ?m s with _ => _ end] =>
    destruct (m s) as [[] s1|s1|c s1] eqn:EB end; [|done..].
  injection Ho as ->.
  apply bind_Ret_inv in EB as ([] & s1 & E1 & EB).
  change (bind get ?k s1) with (k s1 s1) in EB. cbv beta in EB.
  apply bind_Ret_inv in EB as ([] & s2 & E2 & EB).
  apply when_Ret_inv in E2 as [[E2 ->]|[_ E2]]; [|done].
  apply when_Ret_inv in EB as [[EV ->]|[_ EB]].
  - split; [done|]. split; [done|].
    destruct (includes "SDK" (lambdaFilesPath a)); [|done].
    unfold versionWithoutSDK, loose_nonempty in *.
    apply negb_false_iff in EV.
    destruct (ps s1 NEPTUNE_CURRENT_VERSION) as [| |v]; [done..|].
    cbn in EV. apply String.eqb_eq in EV as ->. reflexivity.
  - apply when_Ret_inv in EB as [[EV ->]|[_ EB]]; [|done].
    split; [done|]. split; [done|].
    destruct (includes "SDK" (lambdaFilesPath a)); [|done].
    exact EV.
Qed.

(** ** createLambdaRole *)

Lemma send_Ret_inv region c (s : state) r s' :
  send region c s = Ret r s' -> RESOURCES s' = RESOURCES s.
Proof.
  unfold send, perform. destruct (library _ (world s)) as [[r'|] w]; [|done].
  by intros [= _ <-].
Qed.

Lemma Role_Arn_Ret_inv r (s : state) a s' :
  Role_Arn r s = Ret a s' -> s' = s.
Proof. destruct r; cbn; unfold ret, throw; congruence. Qed.

Lemma Policy_Arn_Ret_inv r (s : state) a s' :
  Policy_Arn r s = Ret a s' -> s' = s.
Proof. destruct r; cbn; unfold ret, throw; congruence. Qed.

Lemma set_ps_Ret_inv x v (s s' : state) :
  set_ps x v s = Ret tt s' -> RESOURCES s' = RESOURCES s.
Proof. by intros [= <-]. Qed.

(** One step of [createLambdaRole] that returned: what it did to
    [RESOURCES]. *)
Ltac role_step H :=
  let E := fresh "E" in
  let u := fresh "u" in
  apply bind_Ret_inv in H as (u & ? & E & H);
  try (match type of u with unit => destruct u end);
  first [ apply send_Ret_inv in E
        | apply storeResource_Ret_inv in E
        | apply Role_Arn_Ret_inv in E; subst
        | apply Policy_Arn_Ret_inv in E; subst
        | apply set_ps_Ret_inv in E ].

Ltac role_resources H :=
  unfold prop; rewrite H;
  repeat match goal with
         | E : RESOURCES ?x = _ |- context [RESOURCES ?x] => rewrite E
         end;
  rewrite <- !insert_union_singleton_l.

(** X11. When [createLambdaRole] returns, [RESOURCES] names the execution
    role NAME + 'LambdaExecutionRole' and the basic execution policy; with
    IAM authentication the second policy of the role is the query policy
    that was created, recorded under [NeptuneQueryPolicy] as well; without,
    it is the VPC access policy that AWS manages, and no query policy is
    recorded. *)
Theorem createLambdaRole_policies (s s' : state) :
  createLambdaRole s = Ret tt s' ->
  prop (RESOURCES s') "LambdaExecutionRole"
  = JString (to_str (ps s NAME) +:+ "LambdaExecutionRole")
  /\ prop (RESOURCES s') "LambdaExecutionPolicy1" = JString basicExecutionRole
  /\ if pb s NEPTUNE_IAM_AUTH then
       exists arn,
         prop (RESOURCES s') "NeptuneQueryPolicy" = JString arn
         /\ prop (RESOURCES s') "LambdaExecutionPolicy2" = JString arn
     else
       prop (RESOURCES s') "LambdaExecutionPolicy2" = JString vpcAccessRole
       /\ RESOURCES s' !! "NeptuneQueryPolicy"
          = RESOURCES s !! "NeptuneQueryPolicy".
Proof.
  intros H. unfold createLambdaRole in H.
  change (bind get ?k s) with (k s s) in H. cbv beta zeta in H.
  do 6 role_step H.
  destruct (pb s NEPTUNE_IAM_AUTH).
  - do 4 role_step H. apply storeResource_Ret_inv in H.
    role_resources H.
    split; [by simplify_map_eq|]. split; [by simplify_map_eq|].
    eexists. split; by simplify_map_eq.
  - role_step H. apply storeResource_Ret_inv in H.
    role_resources H.
    split; [by simplify_map_eq|]. split; [by simplify_map_eq|].
    split; by simplify_map_eq.
Qed.

(** ** createLambdaFunction *)

(** X12. When [NEPTUNE_HOST] is not a string or has fewer than five
    '.'-separated parts, [createLambdaFunction] throws before anything is
    sent: no Lambda function is created and nothing is recorded. *)
Theorem createLambdaFunction_short_host (s : state) :
  shortHost s -> createLambdaFunction s = Throw s.
Proof.
  unfold shortHost, createLambdaFunction. intros H.
  change (bind get ?k s) with (k s s). cbv beta.
  destruct (ps s NEPTUNE_HOST) as [| |host]; [reflexivity..|].
  unfold bind at 1. cbn [as_string ret]. unfold bind at 1.
  unfold Util.parseNeptuneDomainFromHost, Util.splitHost, Util.MIN_HOST_PARTS.
  change (split Util.HOST_DELIMITER host) with (split "." host).
  by destruct (decide (length (split "." host) < 5)).
Qed.

(** ** attachResolvers *)

Lemma getSchemaFields_outcome typeName (s : state) :
  getSchemaFields typeName s
  = match SCHEMA_MODEL s with
    | Some model =>
        match definitions model with
        | Some _ => Ret (schemaFields s typeName) s
        | None => Throw s
        end
    | None => Throw s
    end.
Proof.
  unfold getSchemaFields, schemaFields, bind, get, expect.
  destruct (SCHEMA_MODEL s) as [model|]; [|reflexivity]. cbn.
  by destruct (definitions model).
Qed.

(** [attachResolvers] up to its first command, when the model has its
    definitions. *)
Lemma mutations_outcome (s : state) model defs :
  SCHEMA_MODEL s = Some model -> definitions model = Some defs ->
  (if pb s ADD_MUTATIONS then getSchemaFields "Mutation" else ret []) s
  = Ret (if pb s ADD_MUTATIONS then schemaFields s "Mutation" else []) s.
Proof.
  intros E1 E2. destruct (pb s ADD_MUTATIONS); [|reflexivity].
  by rewrite getSchemaFields_outcome, E1, E2.
Qed.

Ltac side_attach :=
  cbn in *; unfold attaches, resolvedType in *; cbn in *;
  intuition (try congruence; eauto).

(** X13. [attachResolvers] lists and creates resolvers with the client,
    the API and the function it was given, for the type Query, and for the
    type Mutation only when [ADD_MUTATIONS] is set; it creates a resolver
    only for a field that the schema model has in an object type of that
    name, and sends nothing else. *)
Theorem attachResolvers_fields client apiId functionId (s : state) :
  extends (attaches s client apiId functionId) s
          (final (attachResolvers client apiId functionId s)).
Proof.
  assert (K : keeps_at (fun _ => True)
                       (attaches s client apiId functionId)
                       (attachResolvers client apiId functionId) s);
    [|by apply K].
  unfold attachResolvers. apply keeps_at_get. intros _.
  pose proof (getSchemaFields_outcome "Query" s) as EQ.
  pose proof (mutations_outcome s) as EM.
  destruct (SCHEMA_MODEL s) as [model|] eqn:E1;
    [|by apply keeps_at_bind_Throw].
  destruct (definitions model) as [defs|] eqn:E2;
    [|by apply keeps_at_bind_Throw].
  eapply keeps_at_bind_Ret; [exact EQ|].
  eapply keeps_at_bind_Ret; [by eapply EM|]. clear EQ EM.
  apply keeps_at_bind; [repeat keeps_step side_attach|]. intros response s1.
  apply keeps_at_bind; [repeat keeps_step side_attach|]. intros existing s2.
  apply keeps_at_bind.
  { apply keeps_at_for_of_In. intros query s3 Hq.
    repeat keeps_step side_attach. }
  intros _ s3. destruct (pb s ADD_MUTATIONS) eqn:EA; [|apply keeps_at_ret].
  unfold when.
  apply keeps_at_bind; [repeat keeps_step side_attach|]. intros response' s4.
  apply keeps_at_bind; [repeat keeps_step side_attach|]. intros existing' s5.
  apply keeps_at_for_of_In. intros mutation s6 Hm.
  repeat keeps_step side_attach.
Qed.

Lemma existsb_eqb_false (x : string) (l : list string) :
  existsb (String.eqb x) l = false -> ~ In x l.
Proof.
  intros H Hx. assert (existsb (String.eqb x) l = true); [|congruence].
  apply existsb_exists. exists x. split; [done|]. apply String.eqb_refl.
Qed.

Ltac side_skips :=
  cbn in *; unfold skips in *; cbn in *;
  try (intros _; apply existsb_eqb_false; by apply negb_true_iff);
  intuition (try congruence; eauto).

(** X14. When AWS lists resolvers for fields of the type Query,
    [attachResolvers] creates no resolver for any of these fields. *)
Theorem attachResolvers_skips_existing client apiId functionId
    (s : state) (existing : list string) :
  fst (library (Send client (ListResolversCommand apiId "Query")) (world s))
  = Some (RespResolvers existing) ->
  extends (skips "Query" existing) s
          (final (attachResolvers client apiId functionId s)).
Proof.
  intros HL.
  assert (K : keeps_at (fun _ => True) (skips "Query" existing)
                       (attachResolvers client apiId functionId) s);
    [|by apply K].
  unfold attachResolvers. apply keeps_at_get. intros _.
  pose proof (getSchemaFields_outcome "Query" s) as EQ.
  pose proof (mutations_outcome s) as EM.
  destruct (SCHEMA_MODEL s) as [model|] eqn:E1;
    [|by apply keeps_at_bind_Throw].
  destruct (definitions model) as [defs|] eqn:E2;
    [|by apply keeps_at_bind_Throw].
  eapply keeps_at_bind_Ret; [exact EQ|].
  eapply keeps_at_bind_Ret; [by eapply EM|]. clear EQ EM.
  intros _. unfold bind at 1. unfold send at 1. unfold perform at 1.
  destruct (library (Send client (ListResolversCommand apiId "Query"))
                    (world s)) as [r w] eqn:EL.
  cbn in HL. subst r. unfold bind at 1. cbn [resolvers_fieldNames ret].
  match goal with |- context [final (?m ?s1)] =>
    assert (K : keeps_at (fun _ => True) (skips "Query" existing) m s1) end.
  { apply keeps_at_bind.
    - apply keeps_at_for_of. intros query s3.
      repeat keeps_step side_skips.
    - intros _ s3. repeat keeps_step side_skips. }
  destruct (K I) as [_ (l & E & F)]. split; [done|].
  exists (Lib (Send client (ListResolversCommand apiId "Query")) :: l).
  split; [|by constructor]. rewrite E. cbn. by rewrite <- app_assoc.
Qed.

End PipelineMore.

(** ** Runs in the concrete accounts *)

(** The pipeline [demo] exists: it is updated, and its one missing
    resolver is created. *)
Lemma update_of_existing_pipeline_witness :
  (setPipelineVariables Demo.newPipeline ;; @checkPipeline _ _ Deployed.env)
    Deployed.start = Ret tt Deployed.checked
  /\ pb Deployed.checked pipelineExists = true
  /\ extends updateEvent Deployed.checked Deployed.updated
  /\ RESOURCES Deployed.updated = RESOURCES Deployed.checked.
Proof.
  assert (H1 : (setPipelineVariables Demo.newPipeline ;;
                @checkPipeline _ _ Deployed.env) Deployed.start
               = Ret tt Deployed.checked) by (vm_compute; reflexivity).
  assert (H2 : pb Deployed.checked pipelineExists = true)
    by (vm_compute; reflexivity).
  split; [exact H1|]. split; [exact H2|].
  exact (@update_of_existing_pipeline _ _ Deployed.env Demo.newPipeline
           Deployed.start Deployed.checked H1 H2).
Defined.

Example deployed_update_trace :
  drop (length (trace Deployed.checked)) (trace Deployed.updated)
  = map Lib
      [ ReadFileSync (JString "./output/demo-resources.json");
        ZipFolder
          (JString "/opt/utility/src/../templates/Lambda4AppSyncHTTP")
          "./output/output.resolver.graphql.js" "./output/demo.zip";
        Send (JString "us-east-1")
          (UpdateFunctionCodeCommand (JString "demoLambdaFunction")
                                     (JString "PK"));
        Send (JString "us-east-1")
          (StartSchemaCreationCommand (JString "api-1")
                                      (JString "type Airport"));
        Send (JString "us-east-1")
          (ListResolversCommand (JString "api-1") "Query");
        Send (JString "us-east-1")
          (ListResolversCommand (JString "api-1") "Mutation");
        Send (JString "us-east-1")
          (CreateResolverCommand (JString "api-1") "Mutation"
             "createAirport" (JString "function-1")) ].
Proof. vm_compute. reflexivity. Qed.

(** The cluster of [Demo] does not use IAM authentication. *)
Lemma getNeptuneClusterInfo_without_IAM_witness :
  let s' := final (getNeptuneClusterInfo Demo.newPipeline Runs.prepared) in
  World.isNeptuneIAMAuth Demo.newPipeline = false
  /\ getNeptuneClusterInfo Demo.newPipeline Runs.prepared = Ret tt s'
  /\ setNeptuneDbClusterInfo Runs.prepared = Ret tt s'
  /\ pb s' NEPTUNE_CURRENT_IAM = false.
Proof.
  intros s'.
  assert (H : getNeptuneClusterInfo Demo.newPipeline Runs.prepared
              = Ret tt s') by (vm_compute; reflexivity).
  split; [reflexivity|]. split; [exact H|].
  destruct (getNeptuneClusterInfo_without_IAM Demo.newPipeline
              Runs.prepared s' eq_refl H) as (K1 & K2 & _).
  split; [exact K1 | exact K2].
Defined.

(** The execution role of [demo], without IAM authentication. *)
Lemma createLambdaRole_policies_witness :
  let s' := final (createLambdaRole Runs.prepared) in
  createLambdaRole Runs.prepared = Ret tt s'
  /\ prop (RESOURCES s') "LambdaExecutionRole"
     = JString "demoLambdaExecutionRole"
  /\ prop (RESOURCES s') "LambdaExecutionPolicy2" = JString vpcAccessRole.
Proof.
  intros s'.
  assert (H : createLambdaRole Runs.prepared = Ret tt s')
    by (vm_compute; reflexivity).
  split; [exact H|].
  destruct (createLambdaRole_policies Runs.prepared s' H) as (K1 & _ & K3).
  split; [exact K1|]. exact (proj1 K3).
Defined.

(** The host 'localhost' has one part. *)
Lemma createLambdaFunction_short_host_witness :
  shortHost Runs.preparedLocal
  /\ createLambdaFunction Runs.preparedLocal = Throw Runs.preparedLocal.
Proof.
  assert (H : shortHost Runs.preparedLocal) by (vm_compute; lia).
  split; [exact H|]. exact (createLambdaFunction_short_host _ H).
Defined.

(** The field [getAirport] of Query has its resolver already. *)
Lemma attachResolvers_skips_existing_witness :
  let client := JString "us-east-1" in
  let apiId := JString "api-1" in
  fst (@library _ _ Deployed.env
         (Send client (ListResolversCommand apiId "Query"))
         (world Deployed.prepared))
  = Some (RespResolvers ["getAirport"])
  /\ extends (skips "Query" ["getAirport"]) Deployed.prepared
             (final (@attachResolvers _ _ Deployed.env client apiId
                       (JString "function-1") Deployed.prepared)).
Proof.
  intros client apiId.
  assert (H : fst (@library _ _ Deployed.env
                     (Send client (ListResolversCommand apiId "Query"))
                     (world Deployed.prepared))
              = Some (RespResolvers ["getAirport"]))
    by (vm_compute; reflexivity).
  split; [exact H|].
  exact (@attachResolvers_skips_existing _ _ Deployed.env client apiId
           (JString "function-1") Deployed.prepared ["getAirport"] H).
Defined.

End PipelineMore.

(* ===================================================================== *)
(** * main.js: what a run does, and what it never does *)
(* ===================================================================== *)

Module MainMore.
Import Js World Eff Spec Rules Main MainSpec.
Import MainVar.
Local Open Scope list_scope.
Local Open Scope eff_scope.

Section MainMore.
Context {World Model : Type} `{!Collaborators World Model}.

Local Abbreviation M := (@Eff.M World Model).
Local Abbreviation state := (@Eff.state World Model).

(** ** The options that decide what is deployed *)

Ltac option_labels E :=
  apply MainProofs.is_case_In in E; cbn in E;
  repeat match type of E with
         | _ \/ _ => destruct E as [E|E]
         | False => destruct E
         end; subst.

Lemma processArg_deploy array val index (s : state) :
  match processArg array val index s with
  | Ret _ s' => deployStep val s s' /\ is_case val helpLabels = false
  | Exit _ _ => is_case val helpLabels = true
  | Throw _ => False
  end.
Proof.
  unfold processArg. cbv zeta.
  repeat match goal with
  | |- context [if is_case val ?L then _ else _] =>
      let E := fresh "E" in
      destruct (is_case val L) eqn:E;
      [ option_labels E; cbn; unfold deployStep; cbn;
        rewrite ?andb_true_r, ?orb_false_r, ?andb_false_r, ?orb_true_r;
        try done; by repeat split
      | ]
  end.
  cbn. unfold deployStep, pipelineLabels, cdkLabels, noZipLabels,
    removeLabels, helpLabels, is_case in *. cbn in *.
  repeat match goal with
         | H : _ || _ = false |- _ =>
             apply orb_false_elim in H; destruct H
         end.
  repeat match goal with
         | H : String.eqb _ _ = false |- _ => rewrite H; clear H
         end.
  cbn. rewrite ?andb_true_r, ?orb_false_r. done.
Qed.

Lemma hasOption_cons labels val l :
  hasOption labels (val :: l) = is_case val labels || hasOption labels l.
Proof. reflexivity. Qed.

Lemma forEach_deploy array l index (s : state) :
  match forEach_from index l (processArg array) s with
  | Ret _ s' => deployRead l s s' /\ hasOption helpLabels l = false
  | Exit _ _ => hasOption helpLabels l = true
  | Throw _ => False
  end.
Proof.
  revert index s. induction l as [|val l IH]; intros index s;
    cbn [forEach_from].
  - unfold deployRead, hasOption. cbn.
    rewrite andb_true_r, !orb_false_r. done.
  - unfold bind. pose proof (processArg_deploy array val index s) as H1.
    rewrite !hasOption_cons.
    destruct (processArg array val index s) as [[] s1|s1|c s1];
      [|done|by rewrite H1].
    specialize (IH (S index) s1).
    destruct (forEach_from _ _ _ s1) as [[] s2|s2|c s2];
      [|done|by rewrite IH, orb_true_r].
    destruct H1 as ((A1 & A2 & A3 & A4) & A5).
    destruct IH as ((B1 & B2 & B3 & B4) & B5).
    unfold deployRead. rewrite !hasOption_cons.
    rewrite B1, A1, B2, A2, B3, A3, A5, B5.
    repeat split.
    + by rewrite orb_assoc.
    + by rewrite orb_assoc.
    + by rewrite negb_orb, andb_assoc.
    + intros [E1 E2]%orb_false_elim. by rewrite B4, A4.
Qed.

(** What [processArgs] leaves in the variables that decide what is
    deployed; it ends the process exactly when a help or version option is
    among the arguments. *)
Lemma processArgs_deploy argv (s : state) :
  match processArgs argv s with
  | Ret _ s' => deployRead argv s s' /\ hasOption helpLabels argv = false
  | Exit _ _ => hasOption helpLabels argv = true
  | Throw _ => False
  end.
Proof. apply forEach_deploy. Qed.

Lemma main_afterArguments argv (s : state) :
  main argv s
  = (when (length argv <=? 2)%nat (exit 0) ;; processArgs argv ;;
     afterArguments) s.
Proof. reflexivity. Qed.

(** X15. With at most two arguments, or with a help or version option
    anywhere among them, [main] ends the process with code 0 before it
    reads, writes or calls anything. *)
Theorem main_help (argv : list string) (w : World) :
  length argv <= 2 \/ hasOption helpLabels argv = true ->
  exists s', main argv (initial w) = Exit 0 s' /\ trace s' = [].
Proof.
  intros H. unfold main.
  destruct (Nat.leb_spec (length argv) 2) as [L|L]; cbn [when].
  { by eexists. }
  destruct H as [H|H]; [lia|].
  unfold bind at 1. cbn [ret]. unfold bind at 1.
  pose proof (processArgs_deploy argv (initial w)) as HD.
  pose proof (MainProofs.processArgs_read argv (initial w)) as HR.
  pose proof (MainProofs.processArgs_silent argv (initial w)) as HS.
  destruct (processArgs argv (initial w)) as [[] s1|s1|c s1]; [|done|].
  - destruct HD as [_ HD]. congruence.
  - subst c. by exists s1.
Qed.





(** ** Endpoints *)







(** X18. With [-p] and an endpoint that contains no ':', the step of the
    AWS pipeline ends the process with code 1: the [try] around it does not
    catch the exit, and [createUpdateAWSpipeline] is not called. *)
Theorem outputAWSpipeline_without_port (s : state) (endpoint : string) :
  mb s createUpdatePipeline = true ->
  ms s createUpdatePipelineEndpoint = JString endpoint ->
  includes ":" endpoint = false ->
  outputAWSpipeline s = Exit 1 s.
Proof.
  intros Hp He Hc. unfold outputAWSpipeline.
  change (bind get ?k s) with (k s s). cbv beta.
  rewrite Hp, He. cbn [when as_string]. unfold try_catch.
  unfold bind at 1. cbn [ret]. cbv zeta.
  rewrite (UtilMore.split_one ":" endpoint Hc). reflexivity.
Qed.

(** ** Files *)

Lemma afterMkdir_true (tr : list (event Model)) : afterMkdir true tr = true.
Proof.
  induction tr as [|e tr IH]; [done|]. cbn.
  destruct e as [[]|c]; cbn; by rewrite ?IH.
Qed.

Lemma afterMkdir_app (l tr : list (event Model)) :
  Forall notWrite l -> afterMkdir false tr = true ->
  afterMkdir false (l ++ tr) = true.
Proof.
  intros F H. induction F as [|e l He F IH]; [done|]. cbn.
  unfold notWrite in He.
  destruct e as [[]|c]; cbn in *; rewrite ?He, ?IH; try done.
  apply afterMkdir_true.
Qed.

Ltac side_write :=
  cbn in *; unfold notWrite in *; cbn in *; intuition (try congruence; eauto).

Lemma beforeOutputs_writes argv (s : state) :
  keeps_at (fun _ => True) notWrite (beforeOutputs argv) s.
Proof.
  unfold beforeOutputs, beforeChanges.
  repeat keeps_step side_write.
Qed.

Lemma main_beforeOutputs argv (s : state) :
  main argv s = (beforeOutputs argv ;; afterGeneration) s.
Proof.
  rewrite MainProofs.main_around_generation. unfold beforeOutputs.
  symmetry. apply bind_assoc.
Qed.

Lemma afterGeneration_any (s : state) :
  keeps_at (fun _ => True) (fun _ => True) (outputs ;; removePipeline) s.
Proof. repeat keeps_step ltac:(done). Qed.

(** X19. In every run of [main], nothing is written before [mkdirSync]
    has been called on the output folder: every file written, every
    package zipped and the CDK file come after it in the trace. *)
Theorem writes_after_mkdir (argv : list string) (w : World) :
  afterMkdir false (trace (final (main argv (initial w)))) = true.
Proof.
  rewrite main_beforeOutputs.
  apply (final_two_phases (fun _ => True) notWrite
           (fun s => afterMkdir false (trace s) = true)
           (beforeOutputs argv) (fun _ => afterGeneration)).
  - apply beforeOutputs_writes.
  - done.
  - intros s' _ (l & -> & F). cbn. rewrite <- (app_nil_r l).
    by apply afterMkdir_app.
  - intros _ s' _ (l & E & F). cbn in E. unfold afterGeneration.
    rewrite final_bind. unfold initOutputFolder at 1.
    change (bind get ?k s') with (k s' s'). cbv beta.
    unfold bind at 1. unfold perform.
    destruct (library (MkdirSync (ms s' outputFolderPath)) (world s'))
      as [[r|] w']; cbn [ret final].
    + match goal with |- context [final (?m ?s1)] =>
        destruct (afterGeneration_any s1) as [_ (l' & E' & _)]; [done|]
      end.
      rewrite E'. cbn. rewrite E. rewrite <- app_assoc.
      apply afterMkdir_app; [done|]. cbn. apply afterMkdir_true.
    + cbn. rewrite E. apply afterMkdir_app; [done|]. reflexivity.
Qed.

Ltac side_output :=
  cbn in *; unfold notOutput in *; cbn in *; intuition (try congruence; eauto).

Lemma beforeGeneration_outputs argv (s : state) :
  keeps_at (fun _ => True) notOutput (beforeChanges argv ;; applyChanges) s.
Proof. unfold beforeChanges. repeat keeps_step side_output. Qed.

(** The blocks guarded by [inputGraphQLSchema != ''] are skipped. *)
Ltac hook_empty :=
  lazymatch goal with
  | H : loose_nonempty (ms ?s inputGraphQLSchema) = false
    |- keeps_at _ _ (when (loose_nonempty (ms ?s inputGraphQLSchema)) _) ?s =>
      rewrite H; apply keeps_at_ret
  end.

Lemma generation_without_schema (s : state) :
  keeps_at (fun s => loose_nonempty (ms s inputGraphQLSchema) = false)
           notOutput
           (parseValidateGenerate ;; initOutputFolder ;; outputs ;;
            removePipeline) s.
Proof.
  repeat (cbv beta zeta; first [hook_empty | keeps_step side_output]).
Qed.

(** X20. A run of [main] that ends with [inputGraphQLSchema] at [''] has
    generated nothing: the parser, the validator, the resolver generator
    and the serialiser were not called, no file was written, and neither
    the Lambda package, the AWS pipeline nor the CDK file was made. *)
Theorem no_schema_no_output (argv : list string) (w : World) :
  let s := final (main argv (initial w)) in
  loose_nonempty (ms s inputGraphQLSchema) = false ->
  Forall notOutput (trace s).
Proof.
  cbv zeta. rewrite MainProofs.main_around_generation.
  apply (final_two_phases (fun _ => True) notOutput
           (fun s => loose_nonempty (ms s inputGraphQLSchema) = false ->
                     Forall notOutput (trace s))).
  - apply beforeGeneration_outputs.
  - done.
  - intros s' _ (l & -> & F) _. done.
  - intros _ s' _ (l & E & F) HN. cbn in E.
    destruct (MainProofs.tail_inputSchema (ms s' inputGraphQLSchema) s')
      as [ES _]; [done|].
    unfold afterGeneration in *. rewrite ES in HN.
    destruct (generation_without_schema s' HN) as [_ (l' & E' & F')].
    rewrite E', E. by apply Forall_app.
Qed.

(** ** The schema file *)

Ltac side_inference :=
  unfold schemaFileGiven, notInference, loose_nonempty in *;
  first [ done
        | cbn; done
        | exfalso;
          repeat match goal with
                 | H : _ && _ = true |- _ => apply andb_prop in H as [? ?]
                 end;
          repeat match goal with
                 | H : loose_empty ?x = true, H' : negb (loose_empty ?x) = true
                   |- _ => rewrite H in H'; discriminate H'
                 end
        | cbn in *; intuition (try congruence; eauto) ].

Lemma afterArguments_inference (s : state) :
  keeps_at schemaFileGiven notInference afterArguments s.
Proof. unfold afterArguments. repeat keeps_step side_inference. Qed.

(** X21. When the arguments name a file for the GraphQL schema, [main]
    never calls the inference: a graph database schema, from a file or from
    an endpoint, is not turned into a GraphQL schema. *)
Theorem schema_file_precedence (argv : list string) (w : World) (s1 : state) :
  processArgs argv (initial w) = Ret tt s1 ->
  schemaFileGiven s1 ->
  Forall notInference (trace (final (main argv (initial w)))).
Proof.
  intros H1 HF. rewrite main_afterArguments.
  destruct (length argv <=? 2)%nat; cbn [when]; [constructor|].
  rewrite final_bind. cbn [ret]. rewrite final_bind, H1.
  pose proof (MainProofs.processArgs_silent argv (initial w)) as HS.
  rewrite H1 in HS. cbn in HS.
  destruct (afterArguments_inference s1 HF) as [_ (l & E & F)].
  rewrite E, HS. done.
Qed.

(** ** The resolver files *)

(** X22. The two resolver outputs always return, whether the writes
    succeed or not, after exactly two writes: the Lambda resolver to
    [outputLambdaResolverFile] and the JavaScript resolver to
    [outputJSResolverFile]. When neither file is named and no pipeline name
    is set, the two files are the same one. *)
Theorem resolver_outputs (s : state) :
  exists s',
    (outputLambdaResolver_ ;; outputJSResolver_) s = Ret tt s'
    /\ trace s'
       = trace s
         ++ [ Lib (WriteFileSync (ms s' outputLambdaResolverFile)
                                 (ms s outputLambdaResolver));
              Lib (WriteFileSync (ms s' outputJSResolverFile)
                                 (ms s outputJSResolver)) ]
    /\ (if loose_empty (ms s outputLambdaResolverFile)
           && loose_empty (ms s outputJSResolverFile)
           && loose_empty (ms s createUpdatePipelineName)
        then ms s' outputLambdaResolverFile = ms s' outputJSResolverFile
        else True).
Proof.
  unfold outputLambdaResolver_, outputJSResolver_.
  unfold bind at 1. change (bind get ?k s) with (k s s). cbv beta.
  unfold bind at 1.
  destruct (loose_empty (ms s outputLambdaResolverFile)) eqn:E1;
    cbn [when set_ms ret andb]; unfold bind at 1, get at 1;
    rewrite MainProofs.tryWriteFile_after.
  all: match goal with |- context [bind get ?k ?s1] =>
         change (bind get k s1) with (k s1 s1) end; cbv beta.
  all: unfold bind at 1.
  all: unfold after; cbn [ms record]; fn_simpl.
  all: destruct (loose_empty (ms s outputJSResolverFile)) eqn:E2;
    cbn [when set_ms ret andb]; unfold bind at 1, get at 1;
    rewrite MainProofs.tryWriteFile_after.
  all: eexists; split; [reflexivity|].
  all: unfold after, defaultOutputFile; cbn; fn_simpl.
  all: rewrite <- ?app_assoc; cbn.
  all: split; [reflexivity|].
  all: try done.
  by destruct (loose_empty (ms s createUpdatePipelineName)).
Qed.

(** ** The removal of a pipeline *)


End MainMore.

(** ** Runs in the concrete environment *)

Lemma main_help_witness :
  (length Runs.help <= 2 \/ hasOption helpLabels Runs.help = true)
  /\ exists s', main Runs.help Demo.start = Exit 0 s' /\ trace s' = [].
Proof.
  assert (H : length Runs.help <= 2 \/ hasOption helpLabels Runs.help = true)
    by (right; reflexivity).
  split; [exact H|]. exact (main_help Runs.help tt H).
Defined.

Lemma outputAWSpipeline_without_port_witness :
  let s := final (processArgs Runs.pipelineWithoutPort Demo.start) in
  mb s createUpdatePipeline = true
  /\ ms s createUpdatePipelineEndpoint = JString "localhost"
  /\ includes ":" "localhost" = false
  /\ outputAWSpipeline s = Exit 1 s.
Proof.
  intros s.
  assert (H1 : mb s createUpdatePipeline = true) by (vm_compute; reflexivity).
  assert (H2 : ms s createUpdatePipelineEndpoint = JString "localhost")
    by (vm_compute; reflexivity).
  split; [exact H1|]. split; [exact H2|]. split; [reflexivity|].
  exact (outputAWSpipeline_without_port s "localhost" H1 H2 eq_refl).
Defined.

Lemma no_schema_no_output_witness :
  let s := final (main Runs.quietOnly Demo.start) in
  loose_nonempty (ms s inputGraphQLSchema) = false
  /\ Forall notOutput (trace s).
Proof.
  intros s.
  assert (H : loose_nonempty (ms s inputGraphQLSchema) = false)
    by (vm_compute; reflexivity).
  split; [exact H|]. exact (no_schema_no_output Runs.quietOnly tt H).
Defined.

Lemma schema_file_precedence_witness :
  let s1 := final (processArgs Demo.schemaOnly Demo.start) in
  processArgs Demo.schemaOnly Demo.start = Ret tt s1
  /\ schemaFileGiven s1
  /\ Forall notInference (trace (final (main Demo.schemaOnly Demo.start))).
Proof.
  intros s1.
  assert (H1 : processArgs Demo.schemaOnly Demo.start = Ret tt s1)
    by (vm_compute; reflexivity).
  assert (H2 : schemaFileGiven s1) by (vm_compute; reflexivity).
  split; [exact H1|]. split; [exact H2|].
  exact (schema_file_precedence Demo.schemaOnly tt s1 H1 H2).
Defined.


End MainMore.
